(** * MLR-Copilot: the session controller and the agent control loop

    A shallow embedding of [reactagent/environment.py] (class [Environment])
    and of [reactagent/agents/agent_research.py] (class [ResearchAgent]),
    with the properties the design document states about them.

    Conventions.
    - Python [str] is [string]; [dict] values whose order is observable
      (the action registry, an action's usage table, an action's arguments)
      are association lists in insertion order; directories on disk are
      [gmap]s from path to content.
    - [time.time()] readings are rationals: every reading is a finite float,
      and finite floats are ordered as the rationals they denote.  The
      readings a call makes are explicit arguments of the embedded function.
    - A Python call that may raise returns a [result]. *)

From Stdlib Require Import String Ascii List ZArith QArith Lia Lqa Bool Arith.
From Stdlib Require Import DecimalString DecimalNat.
From stdpp Require Import gmap strings.
Import ListNotations.

Local Open Scope string_scope.
Local Open Scope list_scope.

(** ** Python strings *)

Module PyStr.

Definition nl : string := String "010"%char EmptyString.

(** [s.startswith(p)] *)
Definition startswith (s p : string) : bool := String.prefix p s.

(** [sub in s] *)
Definition contains (sub s : string) : bool :=
  match String.index 0 sub s with
  | Some _ => true
  | None => false
  end.

(** [sep.join(l)] *)
Definition join (sep : string) (l : list string) : string :=
  String.concat sep l.

(** [str(n)] for a non-negative integer *)
Definition str_of_nat (n : nat) : string :=
  NilZero.string_of_uint (Nat.to_uint n).

(** [os.path.join(a, b)] for a relative [b] *)
Definition path_join (a b : string) : string := a +:+ "/" +:+ b.

(** [s[n:]] *)
Fixpoint drop (n : nat) (s : string) : string :=
  match n, s with
  | O, _ => s
  | S _, EmptyString => EmptyString
  | S n', String _ s' => drop n' s'
  end.

Definition is_space (c : ascii) : bool :=
  let n := nat_of_ascii c in
  ((9 <=? n)%nat && (n <=? 13)%nat) || ((28 <=? n)%nat && (n <=? 32)%nat).

Fixpoint lstrip (s : string) : string :=
  match s with
  | String c s' => if is_space c then lstrip s' else s
  | EmptyString => EmptyString
  end.

Fixpoint rstrip (s : string) : string :=
  match s with
  | EmptyString => EmptyString
  | String c s' =>
      match rstrip s' with
      | EmptyString => if is_space c then EmptyString else String c EmptyString
      | r => String c r
      end
  end.

(** [s.strip()] *)
Definition strip (s : string) : string := rstrip (lstrip s).

(** [s.split(sep)[1]], [None] standing for the [IndexError] raised when
    [sep] does not occur in [s]. [sep] is not empty. *)
Definition split_second (sep s : string) : option string :=
  match String.index 0 sep s with
  | None => None
  | Some i =>
      let rest := drop (i + String.length sep)%nat s in
      match String.index 0 sep rest with
      | None => Some rest
      | Some j => Some (String.substring 0 j rest)
      end
  end.

End PyStr.

(** ** Exceptions and results *)

(** The exceptions a registry callable can raise, by the [except] clause of
    [Environment.execute] that receives them (the clauses are tried in this
    order); [BaseExceptionOnly] is a [BaseException] that is not an
    [Exception] ([KeyboardInterrupt], [SystemExit]). *)
Inductive exn : Type :=
| TooLongPromptError
| LLMError (message : string)
| EnvException (message : string)
| TypeError (text : string)
| TimeoutException (text : string)
| OtherException (text : string)
| BaseExceptionOnly (text : string).

Inductive result (A : Type) : Type :=
| Returned (a : A)
| Raised (e : exn).
Arguments Returned {A} a.
Arguments Raised {A} e.

(** ** schema: Action, Step, Trace *)

(** Modelled from the spec: [schema.py] is not among the sources; section 3
    of the design gives [Action] as a name with arguments, where
    [Environment.execute] tests the arguments with [isinstance(_, dict)]. *)
Inductive action_args : Type :=
| ArgsDict (d : list (string * string))
| ArgsOther (raw : string).

Record Action : Type := mkAction {
  name : string;
  args : action_args
}.

(** Modelled from the spec: [schema.py] is not among the sources; a [Step]
    is built as [Step(action, observation, step_time)]. *)
Record Step : Type := mkStep {
  action : Action;
  observation : string;
  timestamp : Q
}.

Definition Workspace : Type := gmap string string.

(** What a registry callable receives: the action's arguments, the log file
    of the step, the live trace (its two step sequences) and the workspace.
    The remaining keyword arguments ([device], [python], [args], ...) are
    the same at every call of a session and are part of the callable. *)
Record ToolCall : Type := mkToolCall {
  call_args : list (string * string);
  call_log_file : string;
  call_steps : list Step;
  call_low_level_steps : list Step;
  call_work : Workspace
}.

(** What a call does: it returns an observation or raises, it may record
    primitive steps on [trace.low_level_steps], and it may change the
    workspace.  [trace.steps] belongs to [Environment.execute] alone. *)
Record ToolEffect : Type := mkToolEffect {
  outcome : result string;
  recorded : list Step;
  work_after : Workspace
}.

(** Modelled from the spec: the action catalogue ([low_level_actions.py],
    [high_level_actions.py], [p2m_actions.py]) is not among the sources;
    section 2 gives a descriptor as usage schema, implementing callable and
    primitive flag. *)
Record ActionInfo : Type := mkActionInfo {
  usage : list (string * string);
  is_primitive : bool;
  function : ToolCall -> ToolEffect
}.

Definition registry : Type := list (string * ActionInfo).

(** [d[k]] and [d.keys()] of a dict kept in insertion order *)
Fixpoint dict_get {V : Type} (d : list (string * V)) (k : string) : option V :=
  match d with
  | [] => None
  | (k', v) :: d' => if String.eqb k k' then Some v else dict_get d' k
  end.

Definition dict_keys {V : Type} (d : list (string * V)) : list string :=
  map fst d.

Definition str_in (s : string) (l : list string) : bool :=
  existsb (String.eqb s) l.

(** Modelled from the spec: [schema.py] is not among the sources; a [Trace]
    is built with these four fields. *)
Record Trace : Type := mkTrace {
  steps : list Step;
  low_level_steps : list Step;
  action_infos : registry;
  task_description : string
}.

(** ** environment.py: class Environment *)

(** The session controller.  The fields follow the attributes of the Python
    object; [_log_trace_json] and [_log_traces] are the files [save] writes
    under the log directory ([trace.json] and [traces/<folder>]), and
    [invoked] is a ghost record of the registry entries called so far. *)
Record Environment : Type := mkEnvironment {
  max_steps : Z;
  max_time : Z;
  _log_dir : string;
  _research_problem : string;
  _read_only_files : list string;
  _work_dir : Workspace;
  _action_infos : registry;
  _trace : Trace;
  _start_time : Q;
  _log_trace_json : option Trace;
  _log_traces : gmap string Workspace;
  invoked : list string
}.

Definition Qltb (x y : Q) : bool := negb (Qle_bool y x).

(** [Environment.is_final]; [now] is the reading of [time.time()]. *)
Definition is_final (env : Environment) (now : Q) : bool :=
  let curr_step := Z.of_nat (length (steps (_trace env))) in
  let any_final_answer :=
    existsb (fun s => String.eqb (name (action s)) "Final Answer")
            (steps (_trace env)) in
  (max_steps env <=? curr_step)%Z
  || any_final_answer
  || Qltb (inject_Z (max_time env)) (now - _start_time env).

Definition shut_down_observation : string :=
  "The environment has shut down because the maximum number of steps or time has been reached. Please submit your final answer.".

Definition invalid_action_observation (action_name : string)
    (infos : registry) : string :=
  let actions := PyStr.join ", " (dict_keys infos) in
  "Invalid action: " +:+ action_name
  +:+ ". Action did not execute. Please use one of the following actions:"
  +:+ PyStr.nl +:+ actions.

(** The usage hint [invalid_action_error] of [Environment.execute]. *)
Definition invalid_action_error (action_name : string)
    (u : list (string * string)) : string :=
  let usage :=
    PyStr.join ("," +:+ PyStr.nl +:+ "            ")
      (map (fun kv => fst kv +:+ ": [" +:+ snd kv +:+ "]") u) in
  let usage :=
    "{" +:+ PyStr.nl +:+ "            " +:+ usage +:+ PyStr.nl +:+ "}" in
  "The action input for " +:+ action_name
  +:+ " needs to be a valid json with proper entries. You may have missed the comma between entries. Please use the correct format and try again:"
  +:+ PyStr.nl +:+ usage.

(** The keyword arguments [execute] adds to the action's own: a call whose
    arguments repeat one of them is refused by Python with a [TypeError]
    before the callable runs. *)
Definition fixed_keywords : list string :=
  ["log_file"; "trace"; "device"; "python"; "work_dir"; "args";
   "read_only_files"; "research_problem"].

Definition tool_log_file (env : Environment) (curr_step : nat) : string :=
  PyStr.path_join (PyStr.path_join (_log_dir env) "tool_logs")
    ("step_" +:+ PyStr.str_of_nat curr_step +:+ "_tool_log.log").

(** The call of [self.action_infos[action_name].function] with the action's
    arguments, [log_file], [trace] and the static keyword arguments: the
    effect of the call and whether the callable was entered. *)
Definition call_function (env : Environment) (info : ActionInfo)
    (d : list (string * string)) (curr_step : nat) : ToolEffect * bool :=
  if existsb (fun k => str_in k fixed_keywords) (dict_keys d)
  then (mkToolEffect
          (Raised (TypeError "got multiple values for keyword argument"))
          [] (_work_dir env), false)
  else (function info
          (mkToolCall d (tool_log_file env curr_step)
             (steps (_trace env)) (low_level_steps (_trace env))
             (_work_dir env)), true).

(** The [except] clauses of [execute], in their order. *)
Definition normalize (action_name hint : string) (e : exn) : result string :=
  match e with
  | TooLongPromptError => Returned "EnvError: too long input for the tool"
  | LLMError message => Returned ("LLMError: " +:+ message)
  | EnvException message => Returned ("EnvError: " +:+ message)
  | TypeError _ => Returned ("EnvError: " +:+ hint)
  | TimeoutException _ => Raised e
  | OtherException text =>
      if PyStr.contains "Connection aborted." text
      then Raised (OtherException "Connection aborted for crfm")
      else Returned ("EnvError: Error executing " +:+ action_name +:+ ".")
  | BaseExceptionOnly _ => Raised e
  end.

Definition set_trace (env : Environment) (t : Trace) : Environment :=
  mkEnvironment (max_steps env) (max_time env) (_log_dir env)
    (_research_problem env) (_read_only_files env) (_work_dir env)
    (_action_infos env) t (_start_time env) (_log_trace_json env)
    (_log_traces env) (invoked env).

(** The state a registry call leaves behind. *)
Definition after_call (env : Environment) (action_name : string)
    (eff : ToolEffect) (entered : bool) : Environment :=
  let t := _trace env in
  mkEnvironment (max_steps env) (max_time env) (_log_dir env)
    (_research_problem env) (_read_only_files env) (work_after eff)
    (_action_infos env)
    (mkTrace (steps t) (low_level_steps t ++ recorded eff)
       (action_infos t) (task_description t))
    (_start_time env) (_log_trace_json env) (_log_traces env)
    (if entered then invoked env ++ [action_name] else invoked env).

(** [Environment.save] when it runs to its end: the trace goes to
    [trace.json], a copy of the workspace to
    [traces/step_<curr_step>_files], replacing what was there.  A [save]
    that an exception leaves is [Interrupted.save] below. *)
Definition save (env : Environment) (curr_step : string) : Environment :=
  let save_folder := "step_" +:+ curr_step +:+ "_files" in
  mkEnvironment (max_steps env) (max_time env) (_log_dir env)
    (_research_problem env) (_read_only_files env) (_work_dir env)
    (_action_infos env) (_trace env) (_start_time env)
    (Some (_trace env))
    (<[save_folder := _work_dir env]> (_log_traces env))
    (invoked env).

(** The first part of [Environment.execute]: the observation, or the
    exception that leaves [execute].  [dict_get] giving [None] is the test
    [action_name not in list(self.action_infos.keys())]. *)
Definition observe (env : Environment) (act : Action) (now_final : Q)
    : result string * Environment :=
  let curr_step := length (steps (_trace env)) in
  let action_name := name act in
  let action_input := args act in
  if String.eqb action_name "Final Answer" then (Returned "end", env)
  else if is_final env now_final then (Returned shut_down_observation, env)
  else
    match dict_get (_action_infos env) action_name with
    | None =>
        (Returned (invalid_action_observation action_name (_action_infos env)),
         env)
    | Some info =>
        let hint := invalid_action_error action_name (usage info) in
        match action_input with
        | ArgsDict d =>
            let (eff, entered) := call_function env info d curr_step in
            let env' := after_call env action_name eff entered in
            match outcome eff with
            | Returned obs => (Returned obs, env')
            | Raised e => (normalize action_name hint e, env')
            end
        | ArgsOther _ => (Returned hint, env)
        end
    end.

(** [Environment.execute]; [now_final] is the reading of [time.time()]
    inside [is_final] and [now_step] the one taken for [step_time].  Here
    the only statement that raises is the registry call; the other exits of
    the method are those of [Interrupted.execute] below. *)
Definition execute (env : Environment) (act : Action) (now_final now_step : Q)
    : result string * Environment :=
  let curr_step := length (steps (_trace env)) in
  match observe env act now_final with
  | (Raised e, env') => (Raised e, env')
  | (Returned obs, env') =>
      let t := _trace env' in
      let env'' :=
        set_trace env'
          (mkTrace (steps t ++ [mkStep act obs now_step])
             (low_level_steps t) (action_infos t) (task_description t)) in
      (Returned obs, save env'' (PyStr.str_of_nat curr_step))
  end.

(** *** Exceptions from outside the registry call

    Two things raise in [execute] outside the [try] of line 243.  The
    alarm that [__enter__] sets makes its handler raise [TimeoutException]
    at whatever statement is running, and the file operations of [save]
    ([open], [json.dump] with the deep copy behind [self.trace], [rmtree],
    [copytree]) raise when the file system refuses them.  An
    [interruption] names the place, in program order, and the exception;
    for the two places inside [save] it also gives what the statement
    that failed leaves in the file it was writing, which the program does
    not determine ([None]: no readable trace, no folder). *)
Inductive interruption : Type :=
| Uninterrupted
| BeforeCall (e : exn)
| BeforeAppend (e : exn)
| InTraceJson (e : exn) (remains : option Trace)
| InSnapshot (e : exn) (remains : option Workspace)
| BeforeReturn (e : exn).

Module Interrupted.

(** [i] reaches [save] after the append of line 271. *)
Definition after_append (i : interruption) : bool :=
  match i with
  | InTraceJson _ _ | InSnapshot _ _ | BeforeReturn _ => true
  | _ => false
  end.

Definition set_files (env : Environment) (json : option Trace)
    (traces : gmap string Workspace) : Environment :=
  mkEnvironment (max_steps env) (max_time env) (_log_dir env)
    (_research_problem env) (_read_only_files env) (_work_dir env)
    (_action_infos env) (_trace env) (_start_time env) json traces
    (invoked env).

(** [Environment.save] with its exits: lines 278 and 279 write
    [trace.json], lines 282 to 286 the snapshot folder. *)
Definition save (i : interruption) (env : Environment) (curr_step : string)
    : result unit * Environment :=
  let save_folder := "step_" +:+ curr_step +:+ "_files" in
  match i with
  | InTraceJson e remains =>
      (Raised e, set_files env remains (_log_traces env))
  | InSnapshot e remains =>
      (Raised e,
       set_files env (Some (_trace env))
         (match remains with
          | Some w => <[save_folder := w]> (_log_traces env)
          | None => delete save_folder (_log_traces env)
          end))
  | _ => (Returned tt, save env curr_step)
  end.

(** [Environment.execute] with its exits: lines 217 to 267 give the
    observation, line 271 appends the step, line 273 saves, line 274
    returns. *)
Definition execute (i : interruption) (env : Environment) (act : Action)
    (now_final now_step : Q) : result string * Environment :=
  let curr_step := length (steps (_trace env)) in
  match i with
  | BeforeCall e => (Raised e, env)
  | _ =>
      match observe env act now_final with
      | (Raised e, env') => (Raised e, env')
      | (Returned obs, env') =>
          match i with
          | BeforeAppend e => (Raised e, env')
          | _ =>
              let t := _trace env' in
              let env'' :=
                set_trace env'
                  (mkTrace (steps t ++ [mkStep act obs now_step])
                     (low_level_steps t) (action_infos t)
                     (task_description t)) in
              match save i env'' (PyStr.str_of_nat curr_step) with
              | (Raised e, env3) => (Raised e, env3)
              | (Returned _, env3) =>
                  match i with
                  | BeforeReturn e => (Raised e, env3)
                  | _ => (Returned obs, env3)
                  end
              end
          end
      end
  end.

End Interrupted.

(** *** Initialisation *)

(** [l[:stop]] with Python's reading of a negative [stop]. *)
Definition slice_to {A : Type} (l : list A) (stop : Z) : list A :=
  let len := Z.of_nat (length l) in
  let stop' := if (stop <? 0)%Z then Z.max 0 (stop + len) else Z.min stop len in
  firstn (Z.to_nat stop') l.

(** [l[-1]]; [None] is the [IndexError] of an empty list. *)
Definition last_item {A : Type} (l : list A) : option A :=
  nth_error l (length l - 1).

(** [Environment._initialize_trace].  [resume] is the trace read from
    [<args.resume>/env_log/trace.json], [None] when [args.resume] is not
    set; [resume_step] is [args.resume_step]. *)
Definition _initialize_trace (resume : option Trace) (resume_step : Z)
    (infos : registry) (research_problem : string) : result Trace :=
  match resume with
  | Some prev_trace =>
      let steps' := slice_to (steps prev_trace) (resume_step + 1) in
      match last_item steps' with
      | None => Raised (OtherException "list index out of range")
      | Some last_step =>
          let t := timestamp last_step in
          let low_level_steps' :=
            List.filter (fun s => Qltb (timestamp s) t)
              (low_level_steps prev_trace) in
          Returned (mkTrace steps' low_level_steps' infos research_problem)
      end
  | None => Returned (mkTrace [] [] infos research_problem)
  end.

(** [fnmatch.fnmatch(name, pat)] on POSIX for patterns made of [*], [?] and
    literal characters.  Bracket expressions are left out: the patterns
    [_initialize_env] uses are single characters, in which none fits. *)
Fixpoint fnmatch_from (pat : string) : string -> bool :=
  match pat with
  | EmptyString => fun n => match n with EmptyString => true | _ => false end
  | String c pat' =>
      if Ascii.eqb c "*" then
        fix star (n : string) : bool :=
          fnmatch_from pat' n
          || match n with
             | EmptyString => false
             | String _ n' => star n'
             end
      else if Ascii.eqb c "?" then
        fun n => match n with
                 | EmptyString => false
                 | String _ n' => fnmatch_from pat' n'
                 end
      else
        fun n => match n with
                 | EmptyString => false
                 | String d n' => Ascii.eqb c d && fnmatch_from pat' n'
                 end
  end.

Definition fnmatch (n pat : string) : bool := fnmatch_from pat n.

Definition can_modify_files : string := "*".

Fixpoint chars (s : string) : list string :=
  match s with
  | EmptyString => []
  | String c s' => String c EmptyString :: chars s'
  end.

(** The loop of [_initialize_env] that fills [read_only_files]; [walk] is
    what [os.walk] yields, a directory's path relative to the workspace with
    its file names; [patterns] is what the loop iterates over. *)
Definition read_only_scan (patterns : list string)
    (walk : list (string * list string)) : list string :=
  flat_map
    (fun dir =>
       let relpath := fst dir in
       let filenames := map (PyStr.path_join relpath) (snd dir) in
       flat_map
         (fun not_ignore =>
            List.filter (fun n => negb (fnmatch n not_ignore)) filenames)
         patterns)
    walk.

Definition _initialize_env (walk : list (string * list string)) : list string :=
  read_only_scan (chars can_modify_files) walk.

(** ** agents/agent_research.py: class ResearchAgent *)

Module Agent.

(** *** Calls to the completion service

    A completion service answers the [k]-th call it receives, made with a
    prompt, by a completion or by raising.  A computation that calls a
    service carries the prompts sent so far; a raise ends it. *)
Definition Completion : Type := nat -> string -> result string.

Definition LLM (A : Type) : Type := list string -> result A * list string.

Definition ret {A : Type} (a : A) : LLM A := fun sent => (Returned a, sent).

Definition bind {A B : Type} (c : LLM A) (k : A -> LLM B) : LLM B :=
  fun sent =>
    match c sent with
    | (Returned a, sent') => k a sent'
    | (Raised e, sent') => (Raised e, sent')
    end.

Definition complete (service : Completion) (prompt : string) : LLM string :=
  fun sent => (service (length sent) prompt, sent ++ [prompt]).

Declare Scope llm_scope.
Delimit Scope llm_scope with llm.
Notation "x <- c ;; k" := (bind c (fun x => k))
  (at level 100, c at next level, right associativity) : llm_scope.

Local Open Scope llm_scope.

Definition entries : Type := list (string * string).

(** The agent object.  [parse_entries] and [all_tool_names] come from the
    base class [Agent], which is not among the sources: they are fields
    here; [parse_entries] gives [None] where the Python method raises. *)
Record ResearchAgent : Type := mkResearchAgent {
  max_retries : Z;
  valid_format_entires : list string;
  all_tool_names : list string;
  parse_entries : string -> list string -> option entries;
  complete_text : Completion;
  complete_text_fast : Completion
}.

(** The body of the [try] in the retry loop of [run]:
    [entries = self.parse_entries(...)] followed by
    [assert entries["Action"].strip() in self.all_tool_names]. *)
Definition try_parse (ag : ResearchAgent) (completion : string)
    : option entries :=
  match parse_entries ag completion (valid_format_entires ag) with
  | None => None
  | Some es =>
      match dict_get es "Action" with
      | None => None
      | Some a =>
          if str_in (PyStr.strip a) (all_tool_names ag) then Some es else None
      end
  end.

Definition corrective_instruction (ag : ResearchAgent) : string :=
  PyStr.nl +:+ PyStr.nl
  +:+ " Your response was in incorrect format. Please provide a valid response with all entries: "
  +:+ PyStr.join ", " (valid_format_entires ag) +:+ PyStr.nl +:+ PyStr.nl.

(** [for _ in range(n)] of the retry loop: the entries of the first valid
    response, if one came, and the prompt as the loop leaves it. *)
Fixpoint retry (ag : ResearchAgent) (n : nat) (prompt : string)
    : LLM (option entries * string) :=
  match n with
  | O => ret (None, prompt)
  | S n' =>
      completion <- complete (complete_text ag) prompt ;;
      match try_parse ag completion with
      | Some es => ret (Some es, prompt)
      | None => retry ag n' (prompt +:+ corrective_instruction ag)
      end
  end.

(** The prompt after [n] corrective instructions. *)
Fixpoint corrected (ag : ResearchAgent) (n : nat) (prompt : string) : string :=
  match n with
  | O => prompt
  | S n' => corrected ag n' (prompt +:+ corrective_instruction ag)
  end.

Definition no_valid_response : string := "No valid response after max_retries".

(** Lines 90 to 107 of [run]: [inl] is the value [run] returns when no
    response was valid, [inr] the entries and prompt the cycle goes on
    with. *)
Definition valid_response (ag : ResearchAgent) (prompt : string)
    : LLM (string + entries * string) :=
  r <- retry ag (Z.to_nat (max_retries ag)) prompt ;;
  match r with
  | (None, _) => ret (inl no_valid_response)
  | (Some es, prompt') => ret (inr (es, prompt'))
  end.

(** *** Summaries of long observations *)

(** [range(0, stop, step)] for a positive [step] *)
Definition range_step (stop step : nat) : list nat :=
  map (fun k => k * step) (seq 0 ((stop + step - 1) / step)).

(** [[observation[i:i+bs] for i in range(0, len(observation), bs)]] *)
Definition blocks (bs : nat) (observation : string) : list string :=
  map (fun i => String.substring i bs observation)
      (range_step (String.length observation) bs).

Definition format_tail : string :=
  "Summarize the observation concisely in this format:" +:+ PyStr.nl
  +:+ "[Observation]: Summarize all relevant details in the observation objectively"
  +:+ PyStr.nl +:+ PyStr.nl
  +:+ "Do not include any result that is guessed rather than directly confirmed by the observation. Do not include additional information or suggestions."
  +:+ PyStr.nl.

Definition block_prompt (act : string) (bs idx : nat) (b : string) : string :=
  let start_line_number := bs * idx + 1 in
  let end_line_number := bs * idx + 1 + String.length b in
  PyStr.nl +:+ act +:+ PyStr.nl +:+ PyStr.nl
  +:+ "The full observation is too long. Given this (partial) observation from character "
  +:+ PyStr.str_of_nat start_line_number +:+ " to character "
  +:+ PyStr.str_of_nat end_line_number +:+ ": " +:+ PyStr.nl
  +:+ "``` " +:+ PyStr.nl +:+ b +:+ PyStr.nl +:+ "```" +:+ PyStr.nl
  +:+ format_tail.

Definition reduce_prompt (act : string) (descriptions : list string) : string :=
  let descriptions :=
    PyStr.join (PyStr.nl +:+ PyStr.nl)
      (map (fun s => "Segment {idx}: " +:+ PyStr.nl +:+ PyStr.nl +:+ s)
           descriptions) in
  PyStr.nl +:+ act +:+ PyStr.nl +:+ PyStr.nl
  +:+ "The full observation is too long. " +:+ PyStr.nl
  +:+ "Given summaries for each segments of the whole observation, summarize to get a cohesive description of the entire observation."
  +:+ PyStr.nl +:+ descriptions +:+ PyStr.nl +:+ PyStr.nl
  +:+ format_tail.

(** [for idx, b in enumerate(blocks)], from index [idx] on *)
Fixpoint describe (fast : Completion) (act : string) (bs idx : nat)
    (bl : list string) : LLM (list string) :=
  match bl with
  | [] => ret []
  | b :: bl' =>
      completion <- complete fast (block_prompt act bs idx b) ;;
      descriptions <- describe fast act bs (S idx) bl' ;;
      ret (completion :: descriptions)
  end.

(** [summarize_observation] for a block size [bs] *)
Definition summarize_with (bs : nat) (fast : Completion)
    (act observation : string) : LLM string :=
  descriptions <- describe fast act bs 0 (blocks bs observation) ;;
  completion <-
    match descriptions with
    | [d] => ret d
    | _ => complete fast (reduce_prompt act descriptions)
    end ;;
  ret match PyStr.split_second "[Observation]:" completion with
      | Some s => s
      | None => completion
      end.

Definition bs : nat := 100 * 100.

(** [ResearchAgent.summarize_observation], whose first statement sets
    [bs = 10000] *)
Definition summarize_observation (ag : ResearchAgent)
    (act observation : string) : LLM string :=
  summarize_with bs (complete_text_fast ag) act observation.

(** Lines 150 to 158 of [run]: the pair of [full_observation] and
    [observation]; [act] is [self.print_action(entries, ...)].  The
    threshold 10000 of line 153 is the number [bs]. *)
Definition observation_for_history (ag : ResearchAgent)
    (act observation : string) : LLM (string * string) :=
  let full_observation := observation in
  if (bs <? String.length observation)%nat
  then
    observation' <- summarize_observation ag act observation ;;
    ret (full_observation, observation')
  else ret (full_observation, observation).

(** *** The in-memory history *)

Record HistoryStep : Type := mkHistoryStep {
  step_idx : nat;
  h_action : entries;
  h_observation : string;
  feedback : string
}.

Definition parsing_error_marker : string := "ActionInputParsingError".

Definition is_parsing_error (h : HistoryStep) : bool :=
  PyStr.startswith (h_observation h) parsing_error_marker.

(** Lines 134 to 144 of [run], the observation of a cycle whose action
    input did not parse *)
Definition parsing_error_observation (act parsing_error : string)
    (u : list (string * string)) : string :=
  let usage :=
    PyStr.join ("," +:+ PyStr.nl +:+ "            ")
      (map (fun kv => fst kv +:+ ": [" +:+ snd kv +:+ "]") u) in
  let usage :=
    "{" +:+ PyStr.nl +:+ "                " +:+ usage +:+ PyStr.nl
    +:+ "        }" in
  let invalid_action_error :=
    "The action input for " +:+ act
    +:+ " needs to be a valid json with proper entries. You may have missed the comma between entries or used triple quotes (json does not recognizes triple quotes). Please use the correct format and try again:"
    +:+ PyStr.nl +:+ usage in
  "ActionInputParsingError: " +:+ parsing_error +:+ PyStr.nl
  +:+ invalid_action_error.

(** Lines 189 to 198 of [run]: the cycle is appended to
    [self.history_steps], which is then filtered when the new observation
    is not a parsing error.  In [run] these lines come after line 187:
    [Loop.run_after_yield] has them in their place. *)
Definition update_history (history_steps : list HistoryStep)
    (trace_len : nat) (es : entries) (observation fb : string)
    : list HistoryStep :=
  let history_steps :=
    history_steps ++ [mkHistoryStep trace_len es observation fb] in
  if negb (PyStr.startswith observation parsing_error_marker)
  then List.filter (fun step => negb (is_parsing_error step)) history_steps
  else history_steps.

End Agent.

(** ** Objects and aliasing: the [trace] property

    [Environment.trace] returns [copy.deepcopy(self._trace)].  To say what
    the copy protects, the mutable objects a trace is made of live in a
    store: the two step lists, the dict of every action's arguments and the
    registry dict.  [Step], [Action] and [ActionInfo] values are immutable
    and are stored inside the cell of their container; callables are atomic
    for [deepcopy]. *)

Module Heap.

Definition loc : Type := nat.

Inductive args_ref : Type :=
| RefDict (l : loc)
| ValOther (raw : string).

Record StepObj : Type := mkStepObj {
  so_name : string;
  so_args : args_ref;
  so_observation : string;
  so_timestamp : Q
}.

Inductive cell : Type :=
| CSteps (sos : list StepObj)
| CArgs (d : list (string * string))
| CInfos (r : registry).

Abbreviation store := (gmap loc cell).

Record TraceObj : Type := mkTraceObj {
  t_steps : loc;
  t_low_level_steps : loc;
  t_action_infos : loc;
  t_task_description : string
}.

(** *** The value of an object *)

Definition read_args (σ : store) (a : args_ref) : option action_args :=
  match a with
  | RefDict l =>
      match σ !! l with
      | Some (CArgs d) => Some (ArgsDict d)
      | _ => None
      end
  | ValOther raw => Some (ArgsOther raw)
  end.

Definition read_step (σ : store) (so : StepObj) : option Step :=
  match read_args σ (so_args so) with
  | Some a =>
      Some (mkStep (mkAction (so_name so) a) (so_observation so)
              (so_timestamp so))
  | None => None
  end.

Fixpoint read_step_list (σ : store) (sos : list StepObj)
    : option (list Step) :=
  match sos with
  | [] => Some []
  | so :: sos' =>
      match read_step σ so, read_step_list σ sos' with
      | Some s, Some ss => Some (s :: ss)
      | _, _ => None
      end
  end.

Definition read_steps (σ : store) (l : loc) : option (list Step) :=
  match σ !! l with
  | Some (CSteps sos) => read_step_list σ sos
  | _ => None
  end.

Definition read_infos (σ : store) (l : loc) : option registry :=
  match σ !! l with
  | Some (CInfos r) => Some r
  | _ => None
  end.

Definition read_trace (σ : store) (t : TraceObj) : option Trace :=
  match read_steps σ (t_steps t), read_steps σ (t_low_level_steps t),
        read_infos σ (t_action_infos t) with
  | Some ss, Some ls, Some r => Some (mkTrace ss ls r (t_task_description t))
  | _, _, _ => None
  end.

(** The value of any object of the store. *)
Inductive obj_value : Type :=
| VSteps (ss : list Step)
| VArgs (d : list (string * string))
| VInfos (r : registry).

Definition read_obj (σ : store) (l : loc) : option obj_value :=
  match σ !! l with
  | Some (CSteps sos) =>
      match read_step_list σ sos with
      | Some ss => Some (VSteps ss)
      | None => None
      end
  | Some (CArgs d) => Some (VArgs d)
  | Some (CInfos r) => Some (VInfos r)
  | None => None
  end.

(** The objects a trace object is made of. *)
Definition arg_locs (sos : list StepObj) : list loc :=
  flat_map (fun so => match so_args so with
                      | RefDict l => [l]
                      | ValOther _ => []
                      end) sos.

Definition list_locs (σ : store) (l : loc) : list loc :=
  l :: match σ !! l with
       | Some (CSteps sos) => arg_locs sos
       | _ => []
       end.

Definition trace_locs (σ : store) (t : TraceObj) : list loc :=
  list_locs σ (t_steps t) ++ list_locs σ (t_low_level_steps t)
  ++ [t_action_infos t].

(** *** copy.deepcopy *)

(** [deepcopy] keeps a memo from the objects already copied to their
    copies, so that an object met twice is copied once. *)
Abbreviation memo := (gmap loc loc).

Definition alloc (σ : store) (c : cell) : loc * store :=
  let l := fresh (dom σ) in (l, <[l := c]> σ).

Definition copy_dict (st : memo * store) (l : loc)
    : option (loc * (memo * store)) :=
  match fst st !! l with
  | Some l' => Some (l', st)
  | None =>
      match snd st !! l with
      | Some (CArgs d) =>
          let (l', σ') := alloc (snd st) (CArgs d) in
          Some (l', (<[l := l']> (fst st), σ'))
      | _ => None
      end
  end.

Definition copy_step (st : memo * store) (so : StepObj)
    : option (StepObj * (memo * store)) :=
  match so_args so with
  | ValOther _ => Some (so, st)
  | RefDict l =>
      match copy_dict st l with
      | Some (l', st') =>
          Some (mkStepObj (so_name so) (RefDict l') (so_observation so)
                  (so_timestamp so), st')
      | None => None
      end
  end.

Fixpoint copy_step_list (st : memo * store) (sos : list StepObj)
    : option (list StepObj * (memo * store)) :=
  match sos with
  | [] => Some ([], st)
  | so :: sos' =>
      match copy_step st so with
      | Some (so', st') =>
          match copy_step_list st' sos' with
          | Some (sos'', st'') => Some (so' :: sos'', st'')
          | None => None
          end
      | None => None
      end
  end.

Definition copy_list (st : memo * store) (l : loc)
    : option (loc * (memo * store)) :=
  match fst st !! l with
  | Some l' => Some (l', st)
  | None =>
      match snd st !! l with
      | Some (CSteps sos) =>
          match copy_step_list st sos with
          | Some (sos', st') =>
              let (l', σ') := alloc (snd st') (CSteps sos') in
              Some (l', (<[l := l']> (fst st'), σ'))
          | None => None
          end
      | _ => None
      end
  end.

Definition copy_infos (st : memo * store) (l : loc)
    : option (loc * (memo * store)) :=
  match fst st !! l with
  | Some l' => Some (l', st)
  | None =>
      match snd st !! l with
      | Some (CInfos r) =>
          let (l', σ') := alloc (snd st) (CInfos r) in
          Some (l', (<[l := l']> (fst st), σ'))
      | _ => None
      end
  end.

(** [copy.deepcopy(t)]: [None] only for a store with a dangling or
    ill-typed reference, which Python does not have. *)
Definition deepcopy (σ : store) (t : TraceObj) : option (TraceObj * store) :=
  match copy_list (∅, σ) (t_steps t) with
  | Some (s', st1) =>
      match copy_list st1 (t_low_level_steps t) with
      | Some (l', st2) =>
          match copy_infos st2 (t_action_infos t) with
          | Some (i', st3) =>
              Some (mkTraceObj s' l' i' (t_task_description t), snd st3)
          | None => None
          end
      | None => None
      end
  | None => None
  end.

(** What holds while [deepcopy] runs on a store that was [σ0] when it
    began: the objects of [σ0] are untouched, and every memo entry leads
    from an object of [σ0] to an object created since, of the same value
    and made of objects created since. *)
Definition copied (σ0 : store) (st : memo * store) : Prop :=
  σ0 ⊆ snd st
  /\ forall l l',
       fst st !! l = Some l' ->
       (exists v, read_obj σ0 l = Some v /\ read_obj (snd st) l' = Some v)
       /\ Forall (fun k => k ∉ dom σ0) (list_locs (snd st) l').

(** *** The environment object *)

(** An [Environment] whose [_trace] is an object of the store; the other
    attributes are those of [h_rest]. *)
Record HEnvironment : Type := mkHEnvironment {
  h_rest : Environment;
  h_trace : TraceObj
}.

(** The environment as [execute], [is_final] and [save] see it. *)
Definition view (σ : store) (he : HEnvironment) : option Environment :=
  match read_trace σ (h_trace he) with
  | Some t => Some (set_trace (h_rest he) t)
  | None => None
  end.

(** The property [Environment.trace]. *)
Definition trace (σ : store) (he : HEnvironment) : option (TraceObj * store) :=
  deepcopy σ (h_trace he).

(** What a caller can do to an object: replace its content, or create it. *)
Inductive mutation : Type :=
| Write (l : loc) (c : cell).

Definition target (m : mutation) : loc :=
  match m with Write l _ => l end.

Definition mutate1 (σ : store) (m : mutation) : store :=
  match m with Write l c => <[l := c]> σ end.

Definition mutate (σ : store) (ms : list mutation) : store :=
  fold_left mutate1 ms σ.

(** A mutation applied to the trace object [r] returned in store [σ1]:
    it touches an object [r] is made of, or one created afterwards. *)
Definition on_copy (σ1 : store) (r : TraceObj) (m : mutation) : Prop :=
  target m ∈ trace_locs σ1 r \/ target m ∉ dom σ1.

Definition h_is_final (σ : store) (he : HEnvironment) (now : Q)
    : option bool :=
  match view σ he with
  | Some env => Some (is_final env now)
  | None => None
  end.

Definition h_execute (σ : store) (he : HEnvironment) (act : Action)
    (now_final now_step : Q) : option (result string * Environment) :=
  match view σ he with
  | Some env => Some (execute env act now_final now_step)
  | None => None
  end.

Definition h_save (σ : store) (he : HEnvironment) (curr_step : string)
    : option Environment :=
  match view σ he with
  | Some env => Some (save env curr_step)
  | None => None
  end.

End Heap.

(** ** Sessions *)

(** One call of [execute] in a session, with the two clock readings it
    makes. *)
Record Call : Type := mkCall {
  c_action : Action;
  c_now_final : Q;
  c_now_step : Q
}.

(** The calls of a session in order; an exception that leaves [execute]
    ends the session. *)
Fixpoint session (env : Environment) (calls : list Call)
    : Environment * option exn :=
  match calls with
  | [] => (env, None)
  | c :: calls' =>
      match execute env (c_action c) (c_now_final c) (c_now_step c) with
      | (Returned _, env') => session env' calls'
      | (Raised e, env') => (env', Some e)
      end
  end.



(** [steps[i].timestamp <= steps[i+1].timestamp] for every valid [i]. *)
Fixpoint nondecreasing (l : list Step) : bool :=
  match l with
  | [] => true
  | s :: l' =>
      match l' with
      | [] => true
      | s' :: _ => Qle_bool (timestamp s) (timestamp s') && nondecreasing l'
      end
  end.

(** ** Sample sessions *)

Module Sample.

Definition echo : ActionInfo :=
  mkActionInfo [("text", "what to repeat")] true
    (fun c => mkToolEffect (Returned "ok") [] (call_work c)).

Definition aborting : ActionInfo :=
  mkActionInfo [("url", "where to fetch from")] false
    (fun c => mkToolEffect
                (Raised (OtherException "('Connection aborted.', RemoteDisconnected())"))
                [] (call_work c)).

Definition unreadable : ActionInfo :=
  mkActionInfo [("file_name", "a valid file name")] true
    (fun c => mkToolEffect
                (Raised (EnvException "cannot read file notes.txt"))
                [] (call_work c)).

Definition endless : ActionInfo :=
  mkActionInfo [("script_name", "a python script")] true
    (fun c => mkToolEffect (Raised (TimeoutException "Timed out!"))
                [] (call_work c)).

Definition infos : registry :=
  [("Echo", echo); ("Fetch", aborting); ("Read File", unreadable);
   ("Execute Script", endless)].

Definition env0 : Environment :=
  mkEnvironment 3 18000 "logs/env_log" "task" [] ∅ infos
    (mkTrace [] [] infos "task") 0 None ∅ [].

Definition say (text : string) : Action :=
  mkAction "Echo" (ArgsDict [("text", text)]).

Definition read_notes : Action :=
  mkAction "Read File" (ArgsDict [("file_name", "notes.txt")]).

Definition run_script : Action :=
  mkAction "Execute Script" (ArgsDict [("script_name", "train.py")]).

Definition fetch : Action :=
  mkAction "Fetch" (ArgsDict [("url", "http://example.org")]).

Definition three_calls : list Call :=
  [mkCall (say "a") (1 # 1) (2 # 1);
   mkCall (say "b") (3 # 1) (4 # 1);
   mkCall (say "c") (5 # 1) (5 # 1)].


Definition step_at (n : Z) (obs : string) : Step :=
  mkStep (say obs) obs (inject_Z n).

(** A trace of five steps, as read back from [trace.json]. *)
Definition prev_trace : Trace :=
  mkTrace
    [step_at 10 "s0"; step_at 20 "s1"; step_at 30 "s2"; step_at 40 "s3";
     step_at 50 "s4"]
    [step_at 5 "l0"; step_at 15 "l1"; step_at 30 "l2"; step_at 35 "l3"]
    infos "task".

Definition agent : Agent.ResearchAgent :=
  Agent.mkResearchAgent 5 ["Reflection"; "Action"; "Action Input"]
    ["Echo"; "Fetch"]
    (fun _ _ => None)
    (fun _ _ => Returned "I do not follow the format")
    (fun _ _ => Returned "[Observation]: a summary").

Definition long_observation (n : nat) : string :=
  string_of_list_ascii (repeat "x"%char n).

Definition parsing_error_text : string :=
  Agent.parsing_error_observation "Echo" "Expecting value" (usage echo).

(** A store with the objects of a trace of two steps that share one
    arguments dict. *)
Definition objects : gmap Heap.loc Heap.cell :=
  <[0 := Heap.CSteps
           [Heap.mkStepObj "Echo" (Heap.RefDict 3) "ok" (1 # 1);
            Heap.mkStepObj "Echo" (Heap.RefDict 3) "ok" (2 # 1)]]>
  (<[1 := Heap.CSteps []]>
   (<[2 := Heap.CInfos infos]>
    (<[3 := Heap.CArgs [("text", "a")]]> ∅))).

Definition henv : Heap.HEnvironment :=
  Heap.mkHEnvironment env0 (Heap.mkTraceObj 0 1 2 "task").

Definition shared_steps : list Step :=
  [mkStep (say "a") "ok" (1 # 1); mkStep (say "a") "ok" (2 # 1)].

End Sample.

(** ** More of the session controller and of the control loop *)

(** The folder of the snapshot that [execute] has [save] write for step
    [i]. *)
Definition snapshot_folder (i : nat) : string :=
  "step_" +:+ PyStr.str_of_nat i +:+ "_files".

(** The part of [is_final] that the trace decides: the step budget is
    spent, or a step is named "Final Answer". *)
Definition closed_by_trace (env : Environment) : bool :=
  (max_steps env <=? Z.of_nat (length (steps (_trace env))))%Z
  || existsb (fun s => String.eqb (name (action s)) "Final Answer")
       (steps (_trace env)).

(** What [except Exception] catches. *)
Definition is_Exception (e : exn) : bool :=
  match e with
  | BaseExceptionOnly _ => false
  | _ => true
  end.

Module Loop.

Import Agent.
Local Open Scope llm_scope.

Definition raise {A : Type} (e : exn) : LLM A := fun sent => (Raised e, sent).

(** *** The prompt of a cycle (lines 56 to 88 of [run]) *)

(** [range(start, stop)] *)
Definition py_range (start stop : Z) : list Z :=
  map (fun k => (start + Z.of_nat k)%Z) (seq 0 (Z.to_nat (stop - start))).

Definition history_header (relevant_history : string) : string :=
  PyStr.nl
  +:+ "        Here is a summary of relevant actions and observations you have done:"
  +:+ PyStr.nl +:+ "        ```" +:+ PyStr.nl
  +:+ "        " +:+ relevant_history +:+ PyStr.nl
  +:+ "        ```" +:+ PyStr.nl
  +:+ "        Here are the 3 most recent actions actions and observations"
  +:+ PyStr.nl +:+ "        ".

(** The body of the loop over [idx].  [print_action] is the method of the
    base class [Agent], which is not among the sources.  [idx] is within
    the history, by the bounds of the range. *)
Definition add_step (print_action : entries -> list string -> string)
    (valid_format_entires : list string) (history_steps : list HistoryStep)
    (curr_step last_observation_step : Z) (prompt : string) (idx : Z)
    : string :=
  match nth_error history_steps (Z.to_nat idx) with
  | None => prompt
  | Some h =>
      let action_string := print_action (h_action h) valid_format_entires in
      let prompt :=
        prompt +:+ "Action:" +:+ PyStr.nl +:+ action_string +:+ PyStr.nl
        +:+ "Observation:" +:+ PyStr.nl in
      if (last_observation_step <? curr_step - idx)%Z
      then prompt +:+ "<Done>" +:+ PyStr.nl +:+ PyStr.nl
      else prompt +:+ "```" +:+ PyStr.nl +:+ h_observation h +:+ PyStr.nl
           +:+ "```" +:+ PyStr.nl +:+ PyStr.nl
  end.

(** The prompt sent to the completion service; [last_steps] is
    [args.max_steps_in_context] and [last_observation_step] is
    [args.max_observation_steps_in_context]. *)
Definition build_prompt (print_action : entries -> list string -> string)
    (valid_format_entires : list string)
    (initial_prompt relevant_history : string)
    (history_steps : list HistoryStep)
    (last_steps last_observation_step : Z) (fb : string) : string :=
  let curr_step := Z.of_nat (length history_steps) in
  let prompt := initial_prompt +:+ history_header relevant_history in
  let prompt :=
    fold_left
      (add_step print_action valid_format_entires history_steps curr_step
         last_observation_step)
      (py_range (Z.max (curr_step - last_steps) 0) curr_step) prompt in
  let prompt :=
    prompt +:+ PyStr.nl +:+ "Previous Feedback from Human: " +:+ fb
    +:+ PyStr.nl in
  prompt +:+ PyStr.nl +:+ "Now let's start!" +:+ PyStr.nl +:+ PyStr.nl.

(** *** The plan and status entry (lines 113 to 119 of [run]) *)

Definition char_in (c : ascii) (chars : string) : bool :=
  existsb (Ascii.eqb c) (list_ascii_of_string chars).

Fixpoint lstrip_chars (chars s : string) : string :=
  match s with
  | String c s' => if char_in c chars then lstrip_chars chars s' else s
  | EmptyString => EmptyString
  end.

Fixpoint rstrip_chars (chars s : string) : string :=
  match s with
  | EmptyString => EmptyString
  | String c s' =>
      match rstrip_chars chars s' with
      | EmptyString =>
          if char_in c chars then EmptyString else String c EmptyString
      | r => String c r
      end
  end.

(** [s.strip(chars)] *)
Definition strip_chars (chars s : string) : string :=
  rstrip_chars chars (lstrip_chars chars s).

(** [s.replace("**", "")]: the occurrences are taken from the left and do
    not overlap. *)
Fixpoint remove_double_star (s : string) : string :=
  match s with
  | EmptyString => EmptyString
  | String c s' =>
      match s' with
      | String c' s'' =>
          if Ascii.eqb c "*" && Ascii.eqb c' "*"
          then remove_double_star s''
          else String c (remove_double_star s')
      | EmptyString => String c EmptyString
      end
  end.

(** The value stored back under "Research Plan and Status". *)
Definition new_research_plan (rg : string) : string :=
  remove_double_star (strip_chars "```" rg +:+ PyStr.nl +:+ PyStr.nl).

(** *** The entry of the research log (lines 202 to 213 and 279 to 301) *)

Definition log_entry_prompt (act obs fb : string) : string :=
  "Given your action, the observation, and the human feedback: " +:+ PyStr.nl
  +:+ "        [Action]:" +:+ PyStr.nl
  +:+ "        " +:+ act +:+ PyStr.nl
  +:+ "        [Observation]:" +:+ PyStr.nl
  +:+ "        ```" +:+ PyStr.nl
  +:+ "        " +:+ obs +:+ PyStr.nl
  +:+ "        ```" +:+ PyStr.nl
  +:+ "        [Feedback]:" +:+ PyStr.nl
  +:+ "        " +:+ fb +:+ PyStr.nl
  +:+ "        " +:+ PyStr.nl
  +:+ "        Summarize your action and the observation in this format concisely in under 300 words:"
  +:+ PyStr.nl
  +:+ "        [Reasoning]: Summarize the reasoning behind the action"
  +:+ PyStr.nl
  +:+ "        [Action]: Summarize all relevant details of the action objectively"
  +:+ PyStr.nl
  +:+ "        [Observation]: Summarize all relevant details in the observation objectively"
  +:+ PyStr.nl
  +:+ "        [Feedback]: Summarize all relevant details in the human feedback objectively"
  +:+ PyStr.nl
  +:+ "        Do not include any result that is guessed rather than directly confirmed by the observation. Do not include additional information or suggestions."
  +:+ PyStr.nl +:+ "        ".

(** [ResearchAgent.summarize_log_entry]; the [IndexError] of a completion
    without the marker leaves it. *)
Definition summarize_log_entry (fast : Completion) (act obs fb : string)
    : LLM string :=
  completion <- complete fast (log_entry_prompt act obs fb) ;;
  match PyStr.split_second "[Reasoning]:" completion with
  | Some s => ret ("[Reasoning]:" +:+ s)
  | None => raise (OtherException "list index out of range")
  end.

Definition too_long_to_summarize : string := "Too long to summarize.".

(** The body of the [try] of lines 204 to 210, with [self.history_steps[-1]]
    read inside it. *)
Definition summarize_last_step (fast : Completion)
    (print_action : entries -> list string -> string)
    (valid_format_entires : list string) (history_steps : list HistoryStep)
    : LLM string :=
  match last_item history_steps with
  | None => raise (OtherException "list index out of range")
  | Some h =>
      summarize_log_entry fast (print_action (h_action h) valid_format_entires)
        (h_observation h) (feedback h)
  end.

(** [for _ in range(n)] of lines 203 to 213: the first summary that comes
    without an exception, or the placeholder. *)
Fixpoint log_summary (fast : Completion)
    (print_action : entries -> list string -> string)
    (valid_format_entires : list string) (history_steps : list HistoryStep)
    (n : nat) : LLM string :=
  match n with
  | O => ret too_long_to_summarize
  | S n' =>
      fun sent =>
        match summarize_last_step fast print_action valid_format_entires
                history_steps sent with
        | (Returned s, sent') => (Returned s, sent')
        | (Raised e, sent') =>
            if is_Exception e
            then log_summary fast print_action valid_format_entires
                   history_steps n' sent'
            else (Raised e, sent')
        end
  end.

(** *** The cycle after the yield (lines 176 to 221 of [run]) *)

(** One record of [full_log.jsonl], as [json.dump] writes it at lines 176
    to 186. *)
Record LogRecord : Type := mkLogRecord {
  lr_prompt : string;
  lr_entries : entries;
  lr_full_observation : string;
  lr_observation : string;
  lr_feedback : string
}.

(** What the statements after the yield read and write: the history of
    the agent, the log file, the environment, and the prompts sent so far
    to the secondary service. *)
Record RunState : Type := mkRunState {
  r_history_steps : list HistoryStep;
  r_full_log : list LogRecord;
  r_env : Environment;
  r_sent : list string
}.

(** Statements in sequence: an exception ends the sequence and keeps the
    state reached. *)
Definition Run (A : Type) : Type := RunState -> result A * RunState.

Definition done {A : Type} (a : A) : Run A := fun st => (Returned a, st).

Definition throw {A : Type} (e : exn) : Run A := fun st => (Raised e, st).

Definition and_then {A B : Type} (c : Run A) (k : A -> Run B) : Run B :=
  fun st =>
    match c st with
    | (Returned a, st') => k a st'
    | (Raised e, st') => (Raised e, st')
    end.

Declare Scope run_scope.
Delimit Scope run_scope with run.
Notation "x <~ c ;; k" := (and_then c (fun x => k))
  (at level 100, c at next level, right associativity) : run_scope.

Local Open Scope run_scope.

(** The names [run] binds, as parameters and as targets of assignments,
    [for], [with], [except] and [import] (lines 49 to 225). *)
Definition run_locals : list string :=
  ["self"; "env"; "feedback"; "full_log"; "last_steps";
   "last_observation_step"; "curr_step"; "prompt"; "relevant_history";
   "idx"; "action_string"; "pdb"; "entries"; "valid_response"; "_";
   "log_file"; "completion"; "rg"; "action"; "raw_action_input";
   "new_research_plan_content"; "parsing_error"; "action_input"; "e";
   "observation"; "usage"; "invalid_action_error"; "full_observation";
   "info"; "summary_of_last_step"; "step_idx"].

(** The names the module binds: its imports (lines 2 to 10),
    [initial_prompt] and the class. *)
Definition module_globals : list string :=
  ["os"; "sys"; "json"; "anthropic"; "Path"; "complete_text_fast";
   "complete_text"; "Action"; "Agent"; "format_prompt_dict";
   "initial_prompt"; "ResearchAgent"].

(** [NameError] is an [Exception]. *)
Definition NameError (x : string) : exn :=
  OtherException ("name '" +:+ x +:+ "' is not defined").

(** Reading a name inside [run]: a local, else a global of the module,
    else a built-in; Python has no built-in of the one name read here that
    is neither local nor global, [fp]. *)
Definition load_name (x : string) : Run unit :=
  if str_in x run_locals || str_in x module_globals
  then done tt
  else throw (NameError x).

Definition json_dump (r : LogRecord) : Run unit :=
  fun st =>
    (Returned tt,
     mkRunState (r_history_steps st) (r_full_log st ++ [r]) (r_env st)
       (r_sent st)).

Definition get_history : Run (list HistoryStep) :=
  fun st => (Returned (r_history_steps st), st).

Definition set_history (h : list HistoryStep) : Run unit :=
  fun st =>
    (Returned tt, mkRunState h (r_full_log st) (r_env st) (r_sent st)).

(** [len(env.trace.steps)] *)
Definition trace_length : Run nat :=
  fun st => (Returned (length (steps (_trace (r_env st)))), st).

Definition call_fast {A : Type} (c : LLM A) : Run A :=
  fun st =>
    let (r, sent') := c (r_sent st) in
    (r, mkRunState (r_history_steps st) (r_full_log st) (r_env st) sent').

Definition env_execute (act : Action) (now_final now_step : Q) : Run string :=
  fun st =>
    let (r, env') := execute (r_env st) act now_final now_step in
    (r, mkRunState (r_history_steps st) (r_full_log st) env' (r_sent st)).

Definition research_log_entry (curr_step : nat) (summary : string) : Action :=
  mkAction "Append Summary to Research Log"
    (ArgsDict
       [("content",
         PyStr.nl +:+ PyStr.nl +:+ "Step " +:+ PyStr.str_of_nat curr_step
         +:+ ":" +:+ PyStr.nl +:+ summary +:+ PyStr.nl)]).

(** Lines 176 to 221 of [run], the statements that follow the [yield] of
    line 174 once the generator is resumed with [feedback]: the record
    goes to the log file, [fp.write] reads the name [fp], the cycle enters
    the history, its summary is asked for and appended to the research
    log.  [now_final] and [now_step] are the clock readings of the call of
    [env.execute]. *)
Definition run_after_yield (ag : ResearchAgent)
    (print_action : entries -> list string -> string) (curr_step : nat)
    (prompt : string) (es : entries) (full_observation observation : string)
    (fb : string) (now_final now_step : Q) : Run unit :=
  _ <~ json_dump (mkLogRecord prompt es full_observation observation fb) ;;
  _ <~ load_name "fp" ;;
  n <~ trace_length ;;
  h <~ get_history ;;
  _ <~ set_history (update_history h n es observation fb) ;;
  h <~ get_history ;;
  summary_of_last_step <~
    call_fast (log_summary (complete_text_fast ag) print_action
                 (valid_format_entires ag) h (Z.to_nat (max_retries ag))) ;;
  _ <~ env_execute (research_log_entry curr_step summary_of_last_step)
         now_final now_step ;;
  done tt.

End Loop.

Module More.

Definition show (es : Agent.entries) (keys : list string) : string :=
  PyStr.join ", "
    (map (fun k => k +:+ ": " +:+ match dict_get es k with
                                  | Some v => v
                                  | None => ""
                                  end) keys).

Definition past (n : nat) (obs : string) : Agent.HistoryStep :=
  Agent.mkHistoryStep n [("Action", "Echo"); ("Action Input", obs)] obs "".

Definition five_steps : list Agent.HistoryStep :=
  [past 1 "one"; past 2 "two"; past 3 "three"; past 4 "four"; past 5 "five"].

(** A service whose second answer is the first to follow the format. *)
Definition second_time_right : Agent.Completion :=
  fun k _ => match k with
             | 1 => Returned "Action: Echo"
             | _ => Returned "I do not follow the format"
             end.

Definition patient_agent : Agent.ResearchAgent :=
  Agent.mkResearchAgent 5 ["Action"] ["Echo"; "Fetch"]
    (fun completion _ =>
       if PyStr.startswith completion "Action: "
       then Some [("Action", PyStr.drop 8 completion)]
       else None)
    second_time_right
    (fun _ _ => Returned "[Reasoning]: it seemed right [Action]: echoed").

(** A service that is cut off at its first call. *)
Definition broken_agent : Agent.ResearchAgent :=
  Agent.mkResearchAgent 5 ["Action"] ["Echo"]
    (fun _ _ => None)
    (fun _ _ => Raised (LLMError "overloaded"))
    (fun _ _ => Raised (TimeoutException "Timed out!")).

Definition answer : Action := mkAction "Final Answer" (ArgsOther "done").

(** A run at its first yield: nothing in the history, nothing logged. *)
Definition at_first_yield : Loop.RunState :=
  Loop.mkRunState [] [] Sample.env0 [].

End More.

(** * Properties of the session controller *)

(** ** The read-only file set *)

Lemma fnmatch_star (n : string) : fnmatch n "*" = true.
Proof.
  unfold fnmatch. cbn [fnmatch_from]. cbv beta iota delta [Ascii.eqb Bool.eqb].
  induction n as [|c n IH]; [reflexivity|].
  cbn. exact IH.
Qed.

Lemma nothing_escapes_star (l : list string) :
  List.filter (fun n => negb (fnmatch n "*")) l = [].
Proof.
  induction l as [|n l IH]; cbn [List.filter]; [reflexivity|].
  now rewrite fnmatch_star.
Qed.

(** C9. With the pattern set the code uses, [can_modify_files = '*'], the
    read-only file list computed by [_initialize_env] is empty whatever the
    workspace holds: every relative path matches the pattern. *)
Theorem default_pattern_leaves_nothing_read_only
    (walk : list (string * list string)) :
  _initialize_env walk = []
  /\ forall relpath filename,
       fnmatch (PyStr.path_join relpath filename) can_modify_files = true.
Proof.
  split.
  - unfold _initialize_env, read_only_scan. cbn [chars can_modify_files].
    induction walk as [|dir walk IH]; [reflexivity|].
    cbn [flat_map] in *. rewrite IH, nothing_escapes_star. reflexivity.
  - intros. apply fnmatch_star.
Qed.

(** ** Resuming from a prior trace *)

Lemma Qltb_lt (x y : Q) : Qltb x y = true <-> (x < y)%Q.
Proof.
  unfold Qltb. rewrite negb_true_iff. split.
  - intros H. apply Qnot_le_lt. intros Hle.
    apply Qle_bool_iff in Hle. congruence.
  - intros H. destruct (Qle_bool y x) eqn:E; [|reflexivity].
    apply Qle_bool_iff in E. now apply Qlt_not_le in H.
Qed.

Lemma slice_to_in_range {A : Type} (l : list A) (k : nat) :
  k < length l -> slice_to l (Z.of_nat k + 1) = firstn (S k) l.
Proof.
  intros Hk. unfold slice_to.
  destruct (Z.ltb_spec (Z.of_nat k + 1) 0) as [Hneg|_]; [lia|].
  f_equal. lia.
Qed.

Lemma last_item_firstn {A : Type} (l : list A) (k : nat) :
  k < length l -> last_item (firstn (S k) l) = nth_error l k.
Proof.
  intros Hk. unfold last_item.
  rewrite length_firstn, Nat.min_l by lia.
  rewrite nth_error_firstn.
  replace (S k - 1) with k by lia.
  destruct (Nat.ltb_spec k (S k)); [reflexivity|lia].
Qed.

(** C3. Resuming at a step index [k] inside the prior trace keeps exactly
    the steps [0..k] of the prior trace, and keeps of its low-level steps
    exactly those whose timestamp is strictly below the timestamp of step
    [k], in their order. *)
Theorem resume_keeps_prefix_and_earlier_low_level_steps
    (prev : Trace) (k : nat) (infos : registry) (problem : string) :
  k < length (steps prev) ->
  exists step_k restored,
    nth_error (steps prev) k = Some step_k
    /\ _initialize_trace (Some prev) (Z.of_nat k) infos problem
       = Returned restored
    /\ steps restored = firstn (k + 1) (steps prev)
    /\ length (steps restored) = k + 1
    /\ low_level_steps restored
       = List.filter (fun s => Qltb (timestamp s) (timestamp step_k))
           (low_level_steps prev)
    /\ forall s, In s (low_level_steps restored)
                 <-> In s (low_level_steps prev)
                     /\ (timestamp s < timestamp step_k)%Q.
Proof.
  intros Hk.
  destruct (nth_error (steps prev) k) as [step_k|] eqn:Hnth.
  2:{ apply nth_error_None in Hnth. lia. }
  exists step_k. eexists. split; [reflexivity|].
  unfold _initialize_trace.
  rewrite slice_to_in_range, last_item_firstn, Hnth by assumption.
  split; [reflexivity|]. cbn [steps low_level_steps].
  replace (k + 1) with (S k) by lia.
  split; [reflexivity|].
  split; [rewrite length_firstn; lia|].
  split; [reflexivity|].
  intros s. rewrite filter_In, Qltb_lt. reflexivity.
Qed.

Lemma resume_keeps_prefix_and_earlier_low_level_steps_witness :
  exists step_k restored,
    nth_error (steps Sample.prev_trace) 2 = Some step_k
    /\ _initialize_trace (Some Sample.prev_trace) (Z.of_nat 2) Sample.infos "task"
       = Returned restored
    /\ steps restored = firstn (2 + 1) (steps Sample.prev_trace)
    /\ length (steps restored) = 2 + 1
    /\ low_level_steps restored
       = List.filter (fun s => Qltb (timestamp s) (timestamp step_k))
           (low_level_steps Sample.prev_trace)
    /\ forall s, In s (low_level_steps restored)
                 <-> In s (low_level_steps Sample.prev_trace)
                     /\ (timestamp s < timestamp step_k)%Q.
Proof.
  apply (resume_keeps_prefix_and_earlier_low_level_steps
           Sample.prev_trace 2 Sample.infos "task").
  cbn. lia.
Defined.

(** ** What [execute] does to the trace *)

Lemma observe_keeps_steps (env : Environment) (act : Action) (now : Q) :
  steps (_trace (snd (observe env act now))) = steps (_trace env).
Proof.
  unfold observe.
  destruct (String.eqb (name act) "Final Answer"); [reflexivity|].
  destruct (is_final env now); [reflexivity|].
  destruct (dict_get (_action_infos env) (name act)) as [info|]; [|reflexivity].
  destruct (args act) as [d|raw]; [|reflexivity].
  destruct (call_function env info d _) as [eff entered].
  destruct (outcome eff); reflexivity.
Qed.

Lemma observe_keeps_budget (env : Environment) (act : Action) (now : Q) :
  max_steps (snd (observe env act now)) = max_steps env.
Proof.
  unfold observe.
  destruct (String.eqb (name act) "Final Answer"); [reflexivity|].
  destruct (is_final env now); [reflexivity|].
  destruct (dict_get (_action_infos env) (name act)) as [info|]; [|reflexivity].
  destruct (args act) as [d|raw]; [|reflexivity].
  destruct (call_function env info d _) as [eff entered].
  destruct (outcome eff); reflexivity.
Qed.

Lemma execute_steps (env : Environment) (act : Action) (now_final now_step : Q) :
  steps (_trace (snd (execute env act now_final now_step)))
  = match fst (execute env act now_final now_step) with
    | Returned obs => steps (_trace env) ++ [mkStep act obs now_step]
    | Raised _ => steps (_trace env)
    end.
Proof.
  unfold execute.
  pose proof (observe_keeps_steps env act now_final) as H.
  destruct (observe env act now_final) as [[obs|e] env']; cbn in *;
    now rewrite H.
Qed.

Lemma execute_keeps_budget (env : Environment) (act : Action)
    (now_final now_step : Q) :
  max_steps (snd (execute env act now_final now_step)) = max_steps env.
Proof.
  unfold execute.
  pose proof (observe_keeps_budget env act now_final) as H.
  destruct (observe env act now_final) as [[obs|e] env']; cbn in *; exact H.
Qed.

(** C5, as the code has it.  A call of [execute] that returns an
    observation, by whichever branch, leaves [steps] extended by exactly
    one [Step], made of the action, that observation and the step time.  A
    call that an exception leaves has appended at most one [Step]: none
    when the exception arises before line 271 (in the registry call, or at
    an interruption before the append), and the [Step] of the call when it
    arises in [save] or after it.  [save] itself leaves [steps] as they
    were, so [steps] never shrinks.  Without an interruption the only calls
    that an exception leaves are those of a registered action with mapping
    arguments whose call raises an exception that the handlers of
    [execute] let through. *)
Theorem execute_appends_exactly_one_step
    (i : interruption) (env : Environment) (act : Action)
    (now_final now_step : Q) :
  (match Interrupted.execute i env act now_final now_step with
   | (Returned obs, env') =>
       steps (_trace env') = steps (_trace env) ++ [mkStep act obs now_step]
       /\ length (steps (_trace env')) = length (steps (_trace env)) + 1
   | (Raised _, env') =>
       match fst (observe env act now_final) with
       | Returned obs =>
           if Interrupted.after_append i
           then steps (_trace env')
                = steps (_trace env) ++ [mkStep act obs now_step]
           else steps (_trace env') = steps (_trace env)
       | Raised _ => steps (_trace env') = steps (_trace env)
       end
   end)
  /\ (forall label,
        steps (_trace (save env label)) = steps (_trace env)
        /\ steps (_trace (snd (Interrupted.save i env label)))
           = steps (_trace env))
  /\ Interrupted.execute Uninterrupted env act now_final now_step
     = execute env act now_final now_step
  /\ (forall e,
        fst (execute env act now_final now_step) = Raised e ->
        exists info d e0,
          dict_get (_action_infos env) (name act) = Some info
          /\ args act = ArgsDict d
          /\ outcome (fst (call_function env info d
                             (length (steps (_trace env))))) = Raised e0
          /\ normalize (name act)
                (invalid_action_error (name act) (usage info)) e0
             = Raised e).
Proof.
  split; [|split; [|split]].
  - unfold Interrupted.execute.
    pose proof (observe_keeps_steps env act now_final) as H.
    destruct (observe env act now_final) as [[obs|e] env'];
      cbn [fst snd] in *.
    + destruct i as [|e|e|e remains|e remains|e]; cbn; rewrite ?H, ?length_app;
        try reflexivity; split; reflexivity.
    + destruct i; cbn; rewrite ?H; reflexivity.
  - intros label. split; [reflexivity|].
    destruct i as [|e|e|e remains|e remains|e]; reflexivity.
  - unfold Interrupted.execute, execute.
    destruct (observe env act now_final) as [[obs|e] env']; reflexivity.
  - intros e. unfold execute, observe.
    destruct (String.eqb (name act) "Final Answer"); [discriminate|].
    destruct (is_final env now_final); [discriminate|].
    destruct (dict_get (_action_infos env) (name act)) as [info|];
      [|discriminate].
    destruct (args act) as [d|raw]; [|discriminate].
    destruct (call_function env info d _) as [eff entered] eqn:Ecall.
    destruct (outcome eff) as [obs|e0] eqn:Eout; [discriminate|].
    destruct (normalize _ _ e0) as [obs|e'] eqn:Enorm; [discriminate|].
    cbn. intros [= <-]. exists info, d, e0.
    split; [reflexivity|]. split; [reflexivity|].
    rewrite Ecall. split; [exact Eout|exact Enorm].
Qed.

Lemma execute_appends_exactly_one_step_witness :
  exists info d e0,
    dict_get (_action_infos Sample.env0) (name Sample.fetch) = Some info
    /\ args Sample.fetch = ArgsDict d
    /\ outcome (fst (call_function Sample.env0 info d
                       (length (steps (_trace Sample.env0))))) = Raised e0
    /\ normalize (name Sample.fetch)
          (invalid_action_error (name Sample.fetch) (usage info)) e0
       = Raised (OtherException "Connection aborted for crfm").
Proof.
  apply (proj2 (proj2 (proj2 (execute_appends_exactly_one_step Uninterrupted
                                Sample.env0 Sample.fetch (1 # 1) (2 # 1))))).
  reflexivity.
Defined.

(** A call that the timeout signal leaves adds no step. *)
Lemma a_timed_out_call_appends_no_step :
  fst (execute Sample.env0 Sample.run_script (1 # 1) (2 # 1))
  = Raised (TimeoutException "Timed out!")
  /\ steps (_trace (snd (execute Sample.env0 Sample.run_script (1 # 1) (2 # 1))))
     = steps (_trace Sample.env0)
  /\ length (steps (_trace (snd (execute Sample.env0 Sample.run_script
                                   (1 # 1) (2 # 1)))))
     <> length (steps (_trace Sample.env0)) + 1.
Proof.
  split; [reflexivity|]. split; [reflexivity|]. cbn. discriminate.
Qed.

(** A call whose snapshot cannot be written leaves [execute] with an
    exception and with its step on the trace. *)
Example a_failed_save_leaves_the_step_appended :
  fst (Interrupted.execute (InSnapshot (OtherException "No space left on device") None)
         Sample.env0 (Sample.say "a") (1 # 1) (2 # 1))
  = Raised (OtherException "No space left on device")
  /\ steps (_trace (snd (Interrupted.execute
                           (InSnapshot (OtherException "No space left on device") None)
                           Sample.env0 (Sample.say "a") (1 # 1) (2 # 1))))
     = [mkStep (Sample.say "a") "ok" (2 # 1)].
Proof. split; reflexivity. Qed.

(** On the sample session a call that returns adds its step. *)
Example echo_is_recorded :
  steps (_trace (snd (execute Sample.env0 (Sample.say "a") (1 # 1) (2 # 1))))
  = [mkStep (Sample.say "a") "ok" (2 # 1)].
Proof. reflexivity. Qed.

(** ** The step budget *)

Lemma session_length (calls : list Call) :
  forall env env',
    session env calls = (env', None) ->
    length (steps (_trace env'))
    = length (steps (_trace env)) + length calls
    /\ max_steps env' = max_steps env.
Proof.
  induction calls as [|c calls IH]; intros env env' H; cbn in H.
  - injection H as <-. split; [cbn; lia|reflexivity].
  - pose proof (execute_steps env (c_action c) (c_now_final c) (c_now_step c))
      as Hs.
    pose proof (execute_keeps_budget env (c_action c) (c_now_final c)
                  (c_now_step c)) as Hb.
    destruct (execute env (c_action c) (c_now_final c) (c_now_step c))
      as [[obs|e] env1]; cbn in Hs, Hb; [|discriminate].
    destruct (IH _ _ H) as [Hlen Hmax].
    rewrite Hlen, Hs, length_app, Hmax, Hb. cbn. split; [lia|reflexivity].
Qed.

Lemma is_final_when_budget_spent (env : Environment) (now : Q) :
  (max_steps env <= Z.of_nat (length (steps (_trace env))))%Z ->
  is_final env now = true.
Proof.
  intros H. unfold is_final.
  destruct (Z.leb_spec (max_steps env)
              (Z.of_nat (length (steps (_trace env))))); [reflexivity|lia].
Qed.

(** C2. Once as many actions as the step budget have been executed in a
    session, [is_final] is true, and a further [execute] of an action not
    named "Final Answer" returns the fixed shut-down observation: no registry
    entry is invoked, the workspace and the low-level steps stay as they
    were. *)
Theorem spent_budget_shuts_the_environment_down
    (env env' : Environment) (calls : list Call) :
  session env calls = (env', None) ->
  (max_steps env <= Z.of_nat (length calls))%Z ->
  (forall now, is_final env' now = true)
  /\ forall act now_final now_step,
       name act <> "Final Answer" ->
       fst (execute env' act now_final now_step)
       = Returned shut_down_observation
       /\ invoked (snd (execute env' act now_final now_step)) = invoked env'
       /\ _work_dir (snd (execute env' act now_final now_step)) = _work_dir env'
       /\ low_level_steps (_trace (snd (execute env' act now_final now_step)))
          = low_level_steps (_trace env').
Proof.
  intros Hs Hb.
  destruct (session_length _ _ _ Hs) as [Hlen Hmax].
  assert (Hfin : forall now, is_final env' now = true).
  { intros now. apply is_final_when_budget_spent. rewrite Hmax, Hlen. lia. }
  split; [exact Hfin|].
  intros act now_final now_step Hname.
  unfold execute, observe.
  apply String.eqb_neq in Hname. rewrite Hname, Hfin. cbn.
  repeat split.
Qed.

Lemma spent_budget_shuts_the_environment_down_witness :
  is_final (fst (session Sample.env0 Sample.three_calls)) (6 # 1) = true
  /\ fst (execute (fst (session Sample.env0 Sample.three_calls))
            (Sample.say "d") (6 # 1) (7 # 1))
     = Returned shut_down_observation.
Proof.
  pose proof (spent_budget_shuts_the_environment_down Sample.env0
                (fst (session Sample.env0 Sample.three_calls))
                Sample.three_calls) as H.
  destruct H as [Hfin Hexe].
  - vm_compute. reflexivity.
  - vm_compute. discriminate.
  - split; [apply Hfin|].
    apply (Hexe (Sample.say "d") (6 # 1) (7 # 1)).
    vm_compute. discriminate.
Defined.

(** The other branches on a sample session: an unknown action and arguments
    that are not a mapping are answered by an observation and recorded. *)
Example unknown_action_is_observed :
  fst (execute Sample.env0 (mkAction "NoSuchTool" (ArgsDict [])) 1 2)
  = Returned (invalid_action_observation "NoSuchTool" Sample.infos)
  /\ PyStr.startswith (invalid_action_observation "NoSuchTool" Sample.infos)
       "Invalid action" = true
  /\ length (steps (_trace (snd (execute Sample.env0
                                   (mkAction "NoSuchTool" (ArgsDict [])) 1 2))))
     = 1.
Proof. repeat split. Qed.

Example arguments_that_are_not_a_mapping :
  fst (execute Sample.env0 (mkAction "Echo" (ArgsOther "not-a-mapping")) 1 2)
  = Returned (invalid_action_error "Echo" (usage Sample.echo)).
Proof. reflexivity. Qed.

(** ** Timestamps *)

Lemma nondecreasing_cons (a b : Step) (l : list Step) :
  nondecreasing (a :: b :: l)
  = Qle_bool (timestamp a) (timestamp b) && nondecreasing (b :: l).
Proof. reflexivity. Qed.


Lemma nondecreasing_firstn (n : nat) (l : list Step) :
  nondecreasing l = true -> nondecreasing (firstn n l) = true.
Proof.
  revert l. induction n as [|n IH]; intros l H; [reflexivity|].
  destruct l as [|a l]; [reflexivity|].
  destruct l as [|b l]; [destruct n; reflexivity|].
  rewrite nondecreasing_cons in H. apply andb_true_iff in H as [Hab Hnd].
  specialize (IH _ Hnd).
  destruct n as [|n]; [reflexivity|].
  change (firstn (S (S n)) (a :: b :: l)) with (a :: b :: firstn n l).
  change (firstn (S n) (b :: l)) with (b :: firstn n l) in IH.
  now rewrite nondecreasing_cons, Hab, IH.
Qed.








(** A resumed trace is in time order when the prior one was. *)
Lemma resumed_trace_keeps_order (prev restored : Trace) (k : Z)
    (infos : registry) (problem : string) :
  nondecreasing (steps prev) = true ->
  _initialize_trace (Some prev) k infos problem = Returned restored ->
  nondecreasing (steps restored) = true.
Proof.
  intros Hnd. unfold _initialize_trace, slice_to.
  destruct (last_item _); [|discriminate].
  intros [= <-]. cbn [steps]. now apply nondecreasing_firstn.
Qed.

(** ** Exceptions of a registry callable *)

(** C1, as the code has it.  When the call of a registered action with
    mapping arguments raises, [execute] returns an observation for a
    prompt-too-long error, a completion-service error, a declared
    tool/environment error and a wrong-call-shape error, and the generic
    "EnvError: Error executing <name>." for any other [Exception] whose text
    does not contain "Connection aborted.".  An [Exception] whose text does
    contain it leaves [execute] as a new exception "Connection aborted for
    crfm"; the timeout signal and exceptions outside [Exception] leave
    [execute] unchanged. *)
Theorem execute_normalizes_tool_errors
    (env : Environment) (act : Action) (info : ActionInfo)
    (d : list (string * string)) (now_final now_step : Q) (e : exn) :
  name act <> "Final Answer" ->
  is_final env now_final = false ->
  dict_get (_action_infos env) (name act) = Some info ->
  args act = ArgsDict d ->
  outcome (fst (call_function env info d (length (steps (_trace env)))))
  = Raised e ->
  fst (execute env act now_final now_step)
  = match e with
    | TooLongPromptError => Returned "EnvError: too long input for the tool"
    | LLMError message => Returned ("LLMError: " +:+ message)
    | EnvException message => Returned ("EnvError: " +:+ message)
    | TypeError _ =>
        Returned ("EnvError: " +:+ invalid_action_error (name act) (usage info))
    | TimeoutException text => Raised (TimeoutException text)
    | OtherException text =>
        if PyStr.contains "Connection aborted." text
        then Raised (OtherException "Connection aborted for crfm")
        else Returned ("EnvError: Error executing " +:+ name act +:+ ".")
    | BaseExceptionOnly text => Raised (BaseExceptionOnly text)
    end.
Proof.
  intros Hname Hfin Hget Hargs Hraise.
  apply String.eqb_neq in Hname.
  unfold execute, observe. rewrite Hname, Hfin, Hget, Hargs.
  destruct (call_function env info d _) as [eff entered].
  cbn [fst] in Hraise. rewrite Hraise.
  destruct e as [|m|m|t|t|t|t]; cbn; try reflexivity.
  destruct (PyStr.contains "Connection aborted." t); reflexivity.
Qed.

Lemma execute_normalizes_tool_errors_witness :
  fst (execute Sample.env0 Sample.read_notes 1 2)
  = Returned ("EnvError: " +:+ "cannot read file notes.txt").
Proof.
  apply (execute_normalizes_tool_errors Sample.env0 Sample.read_notes
           Sample.unreadable [("file_name", "notes.txt")] 1 2
           (EnvException "cannot read file notes.txt")).
  - vm_compute. discriminate.
  - vm_compute. reflexivity.
  - vm_compute. reflexivity.
  - reflexivity.
  - reflexivity.
Defined.

(** A callable that raises an ordinary exception whose text contains
    "Connection aborted." is not answered by an observation: a new exception
    leaves [execute]. *)
Lemma connection_aborted_leaves_execute :
  outcome (fst (call_function Sample.env0 Sample.aborting
                  [("url", "http://example.org")] 0))
  = Raised (OtherException "('Connection aborted.', RemoteDisconnected())")
  /\ fst (execute Sample.env0 Sample.fetch 1 2)
     = Raised (OtherException "Connection aborted for crfm")
  /\ fst (execute Sample.env0 Sample.fetch 1 2)
     <> Returned "EnvError: Error executing Fetch.".
Proof.
  split; [reflexivity|]. split; [reflexivity|].
  vm_compute. discriminate.
Qed.

(** * Properties of the agent control loop *)

Section AgentFacts.

Import Agent.
Local Open Scope llm_scope.

(** ** The retry ceiling *)

Lemma retry_without_valid_response (ag : ResearchAgent) :
  (forall k p, exists c,
      complete_text ag k p = Returned c /\ try_parse ag c = None) ->
  forall n prompt sent,
  exists attempts,
    retry ag n prompt sent
    = (Returned (None, corrected ag n prompt), sent ++ attempts)
    /\ length attempts = n.
Proof.
  intros Hbad. induction n as [|n IH]; intros prompt sent.
  - exists []. cbn. unfold ret. now rewrite app_nil_r.
  - destruct (Hbad (length sent) prompt) as (c & Hc & Hparse).
    destruct (IH (prompt +:+ corrective_instruction ag) (sent ++ [prompt]))
      as (attempts & Hretry & Hlen).
    exists (prompt :: attempts). split; [|cbn; now rewrite Hlen].
    cbn [retry corrected]. unfold bind, complete. rewrite Hc, Hparse, Hretry.
    now rewrite <- app_assoc.
Qed.

(** C8. When every response of the completion service fails parsing or
    the check of the action name, the retry loop of a cycle calls the
    service exactly [max_retries] times (no time for a ceiling below one)
    and [run] then returns "No valid response after max_retries": nothing
    is raised and no further call is made. *)
Theorem retry_ceiling_halts_the_loop
    (ag : ResearchAgent) (prompt : string) (sent : list string) :
  (forall k p, exists c,
      complete_text ag k p = Returned c /\ try_parse ag c = None) ->
  exists attempts,
    valid_response ag prompt sent
    = (Returned (inl "No valid response after max_retries"), sent ++ attempts)
    /\ Z.of_nat (length attempts) = Z.max 0 (max_retries ag).
Proof.
  intros Hbad.
  destruct (retry_without_valid_response ag Hbad
              (Z.to_nat (max_retries ag)) prompt sent)
    as (attempts & Hretry & Hlen).
  exists attempts. split; [|lia].
  unfold valid_response, bind. rewrite Hretry. reflexivity.
Qed.

Lemma retry_ceiling_halts_the_loop_witness :
  exists attempts,
    valid_response Sample.agent "prompt" []
    = (Returned (inl "No valid response after max_retries"), [] ++ attempts)
    /\ Z.of_nat (length attempts) = Z.max 0 (max_retries Sample.agent).
Proof.
  apply (retry_ceiling_halts_the_loop Sample.agent "prompt" []).
  intros k p. exists "I do not follow the format". split; reflexivity.
Defined.

End AgentFacts.

(** ** Blocks of a long observation *)

Section Blocks.

Import Agent.
Local Open Scope llm_scope.

Lemma substring_drop (n m : nat) (s : string) :
  String.substring n m s = String.substring 0 m (PyStr.drop n s).
Proof.
  revert s. induction n as [|n IH]; intros s; [reflexivity|].
  destruct s as [|c s]; [destruct m; reflexivity|].
  cbn [PyStr.drop]. rewrite <- IH. reflexivity.
Qed.

Lemma drop_add (a b : nat) (s : string) :
  PyStr.drop (a + b) s = PyStr.drop b (PyStr.drop a s).
Proof.
  revert s. induction a as [|a IH]; intros s; [reflexivity|].
  destruct s as [|c s]; [destruct b; reflexivity|].
  cbn. apply IH.
Qed.

Lemma substring_add (a b : nat) (s : string) :
  String.substring 0 (a + b) s
  = String.substring 0 a s +:+ String.substring 0 b (PyStr.drop a s).
Proof.
  revert s. induction a as [|a IH]; intros s; [destruct s; reflexivity|].
  destruct s as [|c s]; [destruct b; reflexivity|].
  cbn. now rewrite IH.
Qed.

Lemma substring_all (m : nat) (s : string) :
  String.length s <= m -> String.substring 0 m s = s.
Proof.
  revert s. induction m as [|m IH]; intros s H.
  - destruct s; [reflexivity|cbn in H; lia].
  - destruct s as [|c s]; [reflexivity|].
    cbn in *. rewrite IH; [reflexivity|lia].
Qed.

Lemma length_substring_le (n m : nat) (s : string) :
  String.length (String.substring n m s) <= m.
Proof.
  rewrite substring_drop. generalize (PyStr.drop n s). clear.
  induction m as [|m IH]; intros s.
  - destruct s; cbn; lia.
  - destruct s as [|c s]; cbn; [lia|]. specialize (IH s). lia.
Qed.

Lemma concat_cons (x : string) (xs : list string) :
  String.concat "" (x :: xs) = x +:+ String.concat "" xs.
Proof.
  destruct xs as [|y ys]; [|reflexivity].
  cbn [String.concat].
  induction x as [|c x IH]; [reflexivity|].
  change (String c x = String c (x +:+ "")). now rewrite <- IH.
Qed.

Lemma concat_of_blocks (size c : nat) (s : string) :
  String.concat ""
    (map (fun i => String.substring i size s)
         (map (fun k => k * size) (seq 0 c)))
  = String.substring 0 (c * size) s.
Proof.
  rewrite map_map. revert s. induction c as [|c IH]; intros s.
  - destruct s; reflexivity.
  - rewrite <- cons_seq, <- seq_shift, map_cons, map_map, concat_cons.
    change (S c * size) with (size + c * size).
    rewrite substring_add, <- IH. f_equal. f_equal.
    apply map_ext. intros k.
    rewrite (substring_drop (k * size)), substring_drop.
    f_equal. rewrite <- drop_add. f_equal; lia.
Qed.

Lemma ceiling_covers (len size : nat) :
  0 < size -> len <= (len + size - 1) / size * size.
Proof.
  intros Hs.
  pose proof (Nat.div_mod_eq (len + size - 1) size) as Hdm.
  pose proof (Nat.mod_upper_bound (len + size - 1) size) as Hlt.
  nia.
Qed.

Lemma blocks_count (size : nat) (s : string) :
  length (blocks size s) = (String.length s + size - 1) / size.
Proof. unfold blocks, range_step. now rewrite !length_map, length_seq. Qed.

Lemma blocks_partition (size : nat) (s : string) :
  0 < size ->
  String.concat "" (blocks size s) = s
  /\ Forall (fun b => String.length b <= size) (blocks size s).
Proof.
  intros Hs. split.
  - unfold blocks, range_step. rewrite concat_of_blocks.
    apply substring_all. now apply ceiling_covers.
  - unfold blocks. apply List.Forall_forall. intros b Hb.
    apply in_map_iff in Hb as (i & <- & _). apply length_substring_le.
Qed.

(** ** Calls made for a summary *)

Lemma describe_calls (fast : Completion) (act : string) (size : nat)
    (bl : list string) :
  forall idx sent,
    match describe fast act size idx bl sent with
    | (Returned ds, sent') =>
        length ds = length bl /\ length sent' = length sent + length bl
    | (Raised _, sent') => length sent' <= length sent + length bl
    end.
Proof.
  induction bl as [|b bl IH]; intros idx sent; [cbn; lia|].
  cbn [describe]. unfold bind at 1, complete.
  destruct (fast (length sent) (block_prompt act size idx b)) as [c|e].
  - unfold bind.
    specialize (IH (S idx) (sent ++ [block_prompt act size idx b])).
    destruct (describe fast act size (S idx) bl _) as [[ds|e] sent'];
      cbn; rewrite length_app in IH; cbn in *; lia.
  - rewrite length_app. cbn. lia.
Qed.

End Blocks.

Section Summaries.

Import Agent.
Local Open Scope llm_scope.

Lemma summarize_with_calls (size : nat) (fast : Completion)
    (act obs : string) (sent : list string) :
  let n := length (blocks size obs) in
  match summarize_with size fast act obs sent with
  | (Returned _, sent') =>
      length sent' = length sent + n + (if (n =? 1)%nat then 0 else 1)
  | (Raised _, sent') =>
      length sent' <= length sent + n + (if (n =? 1)%nat then 0 else 1)
  end.
Proof.
  intros n. unfold summarize_with, bind at 1.
  pose proof (describe_calls fast act size (blocks size obs) 0 sent) as H.
  fold n in H.
  destruct (describe fast act size 0 (blocks size obs) sent)
    as [[ds|e] sent1].
  - destruct H as [Hds Hsent]. unfold bind, ret, complete.
    destruct ds as [|d [|d' ds]]; cbn [length] in Hds.
    + rewrite <- Hds. cbn [Nat.eqb].
      destruct (fast _ _); rewrite length_app; cbn; lia.
    + rewrite <- Hds. cbn. lia.
    + rewrite <- Hds. cbn [Nat.eqb].
      destruct (fast _ _); rewrite length_app; cbn; lia.
  - destruct (n =? 1)%nat; lia.
Qed.

Lemma at_least_two_blocks (size len : nat) :
  0 < size -> size < len -> 2 <= (len + size - 1) / size.
Proof.
  intros Hs Hl. apply Nat.div_le_lower_bound; lia.
Qed.

Lemma bs_positive : 0 < bs.
Proof. unfold bs. lia. Qed.

(** C4, as the code has it.  [summarize_observation] cuts the observation
    into consecutive blocks of at most 10,000 characters, as many as the
    length divided by 10,000 and rounded up, asks the secondary service
    once per block, and asks it once more for the reduction unless there
    is exactly one block.  A cycle of [run] summarizes only an observation
    longer than 10,000 characters, which has at least two blocks: one call
    per block and one reduction; an observation of at most 10,000
    characters goes to the history as it is, without any call. *)
Theorem observation_summary_calls
    (ag : ResearchAgent) (act obs : string) (sent : list string) :
  let n := (String.length obs + bs - 1) / bs in
  length (blocks bs obs) = n
  /\ String.concat "" (blocks bs obs) = obs
  /\ Forall (fun b => String.length b <= bs) (blocks bs obs)
  /\ match summarize_observation ag act obs sent with
     | (Returned _, sent') =>
         length sent' = length sent + n + (if (n =? 1)%nat then 0 else 1)
     | (Raised _, sent') =>
         length sent' <= length sent + n + (if (n =? 1)%nat then 0 else 1)
     end
  /\ (String.length obs <= bs ->
      observation_for_history ag act obs sent = (Returned (obs, obs), sent))
  /\ (bs < String.length obs ->
      2 <= n
      /\ match observation_for_history ag act obs sent with
         | (Returned (full, _), sent') =>
             full = obs /\ length sent' = length sent + n + 1
         | (Raised _, sent') => length sent' <= length sent + n + 1
         end).
Proof.
  intros n.
  pose proof (blocks_count bs obs) as Hn. fold n in Hn.
  destruct (blocks_partition bs obs bs_positive) as [Hcat Hlen].
  pose proof (summarize_with_calls bs (complete_text_fast ag) act obs sent)
    as Hcalls.
  cbv zeta in Hcalls. rewrite Hn in Hcalls.
  split; [exact Hn|]. split; [exact Hcat|]. split; [exact Hlen|].
  split; [exact Hcalls|]. split.
  - intros Hshort. unfold observation_for_history.
    destruct (Nat.ltb_spec bs (String.length obs)); [lia|reflexivity].
  - intros Hlong.
    assert (Hn2 : 2 <= n) by (apply at_least_two_blocks; [apply bs_positive|exact Hlong]).
    split; [exact Hn2|]. clearbody n.
    unfold observation_for_history.
    destruct (Nat.ltb_spec bs (String.length obs)); [|lia].
    unfold bind. unfold summarize_observation in *.
    destruct (n =? 1)%nat eqn:E; [apply Nat.eqb_eq in E; lia|].
    destruct (summarize_with bs (complete_text_fast ag) act obs sent)
      as [[s|e] sent']; cbn; [split; [reflexivity|lia]|lia].
Qed.

Lemma length_long_observation (n : nat) :
  String.length (Sample.long_observation n) = n.
Proof.
  unfold Sample.long_observation.
  induction n as [|n IH]; [reflexivity|]. cbn. now rewrite IH.
Qed.

Lemma observation_summary_calls_witness :
  2 <= (String.length (Sample.long_observation (2 * bs + bs / 2)) + bs - 1)
       / bs
  /\ match observation_for_history Sample.agent "Action: Echo"
             (Sample.long_observation (2 * bs + bs / 2)) [] with
     | (Returned (full, _), sent') =>
         full = Sample.long_observation (2 * bs + bs / 2)
         /\ length sent'
            = length (@nil string)
              + (String.length (Sample.long_observation (2 * bs + bs / 2))
                 + bs - 1) / bs
              + 1
     | (Raised _, sent') =>
         length sent'
         <= length (@nil string)
            + (String.length (Sample.long_observation (2 * bs + bs / 2))
               + bs - 1) / bs
            + 1
     end.
Proof.
  apply (observation_summary_calls Sample.agent "Action: Echo"
           (Sample.long_observation (2 * bs + bs / 2)) []).
  rewrite length_long_observation.
  pose proof bs_positive. lia.
Defined.

(** An observation of 25,000 characters has three blocks. *)
Example blocks_of_25000 :
  (String.length (Sample.long_observation (2 * bs + bs / 2)) =? 25 * 1000)%nat
  = true
  /\ (String.length (Sample.long_observation (2 * bs + bs / 2)) + bs - 1) / bs
     = 3.
Proof.
  rewrite length_long_observation. split; vm_compute; reflexivity.
Qed.

(** An observation of exactly 10,000 characters is not summarized in a
    cycle: the secondary service is not called. *)
Lemma boundary_observation_makes_no_call :
  String.length (Sample.long_observation bs) = bs
  /\ observation_for_history Sample.agent "Action: Echo"
       (Sample.long_observation bs) []
     = (Returned (Sample.long_observation bs, Sample.long_observation bs),
        [])
  /\ length (snd (observation_for_history Sample.agent "Action: Echo"
                    (Sample.long_observation bs) [])) <> 1.
Proof.
  assert (H : observation_for_history Sample.agent "Action: Echo"
                (Sample.long_observation bs) []
              = (Returned (Sample.long_observation bs,
                           Sample.long_observation bs), [])).
  { unfold observation_for_history.
    rewrite length_long_observation, Nat.ltb_irrefl. reflexivity. }
  split; [apply length_long_observation|].
  split; [exact H|]. rewrite H. cbn. lia.
Qed.

End Summaries.

(** ** The cycle after the yield *)

Section AfterTheYield.

Import Agent.
Import Loop.

(** C7, as the code has it.  When the generator is resumed after the yield
    of line 174, the record of the cycle is written to the log file and the
    next statement, [fp.write] at line 187, reads a name that is neither a
    local of [run] nor a global of the module: [NameError] leaves [run]
    there.  Lines 189 to 221 are not reached: the cycle is not appended to
    the history and no parsing-error entry is removed from it, the
    secondary service is not asked for a summary, and the environment is
    not called, whatever the cycle and the state were. *)
Theorem a_resumed_cycle_stops_before_the_history_update
    (ag : ResearchAgent) (print_action : entries -> list string -> string)
    (curr_step : nat) (prompt : string) (es : entries)
    (full_observation observation fb : string) (now_final now_step : Q)
    (st : RunState) :
  fst (run_after_yield ag print_action curr_step prompt es full_observation
         observation fb now_final now_step st)
  = Raised (NameError "fp")
  /\ is_Exception (NameError "fp") = true
  /\ r_history_steps
       (snd (run_after_yield ag print_action curr_step prompt es
               full_observation observation fb now_final now_step st))
     = r_history_steps st
  /\ r_sent
       (snd (run_after_yield ag print_action curr_step prompt es
               full_observation observation fb now_final now_step st))
     = r_sent st
  /\ r_env
       (snd (run_after_yield ag print_action curr_step prompt es
               full_observation observation fb now_final now_step st))
     = r_env st
  /\ r_full_log
       (snd (run_after_yield ag print_action curr_step prompt es
               full_observation observation fb now_final now_step st))
     = r_full_log st
       ++ [mkLogRecord prompt es full_observation observation fb].
Proof.
  unfold run_after_yield, and_then, json_dump.
  assert (Hfp : load_name "fp" = throw (NameError "fp")) by reflexivity.
  rewrite Hfp. unfold throw. cbn [fst snd r_history_steps r_sent r_env r_full_log].
  repeat split.
Qed.

(** The first cycle of a run, whose action input did not parse, resumed
    with an empty feedback: the parsing error does not enter the history,
    which stays empty. *)
Example the_first_cycle_never_enters_the_history :
  run_after_yield More.patient_agent More.show 0 "prompt"
    [("Action", "Echo"); ("Action Input", "{text: ")]
    Sample.parsing_error_text Sample.parsing_error_text "" (1 # 1) (2 # 1)
    More.at_first_yield
  = (Raised (OtherException "name 'fp' is not defined"),
     mkRunState []
       [mkLogRecord "prompt" [("Action", "Echo"); ("Action Input", "{text: ")]
          Sample.parsing_error_text Sample.parsing_error_text ""]
       Sample.env0 []).
Proof. reflexivity. Qed.

End AfterTheYield.

(** * The trace accessor returns a deep copy *)

Section Copies.

Import Heap.

(** ** Reading from a larger store *)

Lemma lookup_grows (σ σ' : store) (l : loc) (c : cell) :
  σ ⊆ σ' -> σ !! l = Some c -> σ' !! l = Some c.
Proof. intros Hsub E. exact (lookup_weaken _ _ _ _ E Hsub). Qed.

Lemma read_args_weaken (σ σ' : store) (a : args_ref) (v : action_args) :
  σ ⊆ σ' -> read_args σ a = Some v -> read_args σ' a = Some v.
Proof.
  intros Hsub. destruct a as [l|raw]; unfold read_args; [|done].
  destruct (σ !! l) as [c|] eqn:E; [|done].
  now rewrite (lookup_grows _ _ _ _ Hsub E).
Qed.

Lemma read_step_weaken (σ σ' : store) (so : StepObj) (s : Step) :
  σ ⊆ σ' -> read_step σ so = Some s -> read_step σ' so = Some s.
Proof.
  intros Hsub. unfold read_step.
  destruct (read_args σ (so_args so)) as [a|] eqn:E; [|done].
  now rewrite (read_args_weaken _ _ _ _ Hsub E).
Qed.

Lemma read_step_list_weaken (σ σ' : store) (sos : list StepObj) :
  σ ⊆ σ' ->
  forall ss, read_step_list σ sos = Some ss -> read_step_list σ' sos = Some ss.
Proof.
  intros Hsub. induction sos as [|so sos IH]; intros ss; cbn; [done|].
  destruct (read_step σ so) as [s|] eqn:Es; [|done].
  destruct (read_step_list σ sos) as [ss'|]; [|done].
  intros [= <-].
  now rewrite (read_step_weaken _ _ _ _ Hsub Es), (IH ss').
Qed.

Lemma read_obj_weaken (σ σ' : store) (l : loc) (v : obj_value) :
  σ ⊆ σ' -> read_obj σ l = Some v -> read_obj σ' l = Some v.
Proof.
  intros Hsub. unfold read_obj.
  destruct (σ !! l) as [c|] eqn:E; [|done].
  rewrite (lookup_grows _ _ _ _ Hsub E).
  destruct c as [sos|d|r]; [|done|done].
  destruct (read_step_list σ sos) as [ss|] eqn:Ess; [|done].
  now rewrite (read_step_list_weaken _ _ _ Hsub _ Ess).
Qed.

Lemma read_steps_obj (σ : store) (l : loc) (ss : list Step) :
  read_steps σ l = Some ss <-> read_obj σ l = Some (VSteps ss).
Proof.
  unfold read_steps, read_obj.
  destruct (σ !! l) as [[sos|d|r]|]; try (split; discriminate).
  destruct (read_step_list σ sos); split; congruence.
Qed.

Lemma read_infos_obj (σ : store) (l : loc) (r : registry) :
  read_infos σ l = Some r <-> read_obj σ l = Some (VInfos r).
Proof.
  unfold read_infos, read_obj.
  destruct (σ !! l) as [[sos|d|r']|]; try (split; congruence).
  destruct (read_step_list σ sos); split; discriminate.
Qed.

Lemma read_trace_weaken (σ σ' : store) (t : TraceObj) (tr : Trace) :
  σ ⊆ σ' -> read_trace σ t = Some tr -> read_trace σ' t = Some tr.
Proof.
  intros Hsub. unfold read_trace.
  destruct (read_steps σ (t_steps t)) as [ss|] eqn:E1; [|done].
  destruct (read_steps σ (t_low_level_steps t)) as [ls|] eqn:E2; [|done].
  destruct (read_infos σ (t_action_infos t)) as [r|] eqn:E3; [|done].
  apply read_steps_obj in E1, E2. apply read_infos_obj in E3.
  apply (read_obj_weaken _ _ _ _ Hsub) in E1, E2, E3.
  apply read_steps_obj in E1, E2. apply read_infos_obj in E3.
  now rewrite E1, E2, E3.
Qed.

Lemma list_locs_weaken (σ σ' : store) (l : loc) :
  σ ⊆ σ' -> is_Some (σ !! l) -> list_locs σ' l = list_locs σ l.
Proof.
  intros Hsub [c Hc]. unfold list_locs.
  now rewrite Hc, (lookup_grows _ _ _ _ Hsub Hc).
Qed.

Lemma read_obj_is_Some (σ : store) (l : loc) (v : obj_value) :
  read_obj σ l = Some v -> is_Some (σ !! l).
Proof. unfold read_obj. destruct (σ !! l); [eauto|done]. Qed.

(** ** The copies are new objects of the same value *)

Lemma outside_original (σ0 σ : store) (l : loc) :
  σ0 ⊆ σ -> σ !! l = None -> l ∉ dom σ0.
Proof.
  intros Hsub Hl. apply not_elem_of_dom.
  destruct (σ0 !! l) as [c|] eqn:E; [|done].
  rewrite (lookup_grows _ _ _ _ Hsub E) in Hl. discriminate.
Qed.

Lemma fresh_is_free (σ : store) : σ !! fresh (dom σ) = None.
Proof. apply not_elem_of_dom, is_fresh. Qed.

Lemma copied_extend (σ0 : store) (m : memo) (σ : store) (l l' : loc)
    (c : cell) (v : obj_value) :
  copied σ0 (m, σ) ->
  σ !! l' = None ->
  read_obj σ0 l = Some v ->
  read_obj (<[l' := c]> σ) l' = Some v ->
  Forall (fun k => k ∉ dom σ0) (list_locs (<[l' := c]> σ) l') ->
  copied σ0 (<[l := l']> m, <[l' := c]> σ).
Proof.
  intros [Hsub Hm] Hfree Hv0 Hv Hlocs.
  assert (Hgrow : σ ⊆ <[l' := c]> σ) by now apply insert_subseteq.
  split; cbn [fst snd].
  - now transitivity σ.
  - intros k k' Hk. destruct (decide (l = k)) as [->|Hne].
    + rewrite lookup_insert_eq in Hk. injection Hk as <-.
      split; [exists v; split; assumption|exact Hlocs].
    + rewrite lookup_insert_ne in Hk by assumption.
      destruct (Hm _ _ Hk) as [(w & Hw0 & Hw) Hfresh]. cbn [snd] in *.
      split.
      * exists w. split; [exact Hw0|].
        now apply (read_obj_weaken σ).
      * rewrite (list_locs_weaken σ); [exact Hfresh|exact Hgrow|].
        now apply read_obj_is_Some with w.
Qed.

Lemma copy_dict_spec (σ0 : store) (st : memo * store) (l : loc)
    (d : list (string * string)) :
  copied σ0 st ->
  σ0 !! l = Some (CArgs d) ->
  exists l' st',
    copy_dict st l = Some (l', st')
    /\ copied σ0 st'
    /\ snd st ⊆ snd st'
    /\ snd st' !! l' = Some (CArgs d)
    /\ l' ∉ dom σ0.
Proof.
  destruct st as [m σ]. intros Hinv Hl.
  pose proof Hinv as [Hsub Hm]. cbn [fst snd] in *.
  assert (Hv0 : read_obj σ0 l = Some (VArgs d))
    by (unfold read_obj; now rewrite Hl).
  unfold copy_dict. cbn [fst snd].
  destruct (m !! l) as [l'|] eqn:Em.
  - destruct (Hm _ _ Em) as [(v & Hv & Hv') Hfresh].
    rewrite Hv0 in Hv. injection Hv as <-.
    exists l', (m, σ). split; [reflexivity|]. split; [exact Hinv|].
    split; [reflexivity|]. cbn [snd].
    split.
    + unfold read_obj in Hv'.
      destruct (σ !! l') as [[sos|d'|r]|]; try discriminate.
      * destruct (read_step_list σ sos); discriminate.
      * congruence.
    + unfold list_locs in Hfresh. now inversion Hfresh.
  - rewrite (lookup_grows _ _ _ _ Hsub Hl). unfold alloc.
    pose proof (fresh_is_free σ) as Hfree.
    set (l' := fresh (dom σ)) in *.
    assert (Hout : l' ∉ dom σ0) by now apply (outside_original σ0 σ).
    exists l', (<[l := l']> m, <[l' := CArgs d]> σ).
    split; [reflexivity|]. cbn [snd].
    split; [|split; [now apply insert_subseteq|
                     split; [apply lookup_insert_eq|exact Hout]]].
    apply copied_extend with (VArgs d); try assumption.
    + unfold read_obj. now rewrite lookup_insert_eq.
    + unfold list_locs. rewrite lookup_insert_eq.
      constructor; [exact Hout|constructor].
Qed.

Lemma copy_step_spec (σ0 : store) (st : memo * store) (so : StepObj)
    (s : Step) :
  copied σ0 st ->
  read_step σ0 so = Some s ->
  exists so' st',
    copy_step st so = Some (so', st')
    /\ copied σ0 st'
    /\ snd st ⊆ snd st'
    /\ read_step (snd st') so' = Some s
    /\ Forall (fun k => k ∉ dom σ0) (arg_locs [so']).
Proof.
  intros Hinv Hs. unfold copy_step, read_step in *.
  destruct (so_args so) as [l|raw] eqn:Ea; cbn [read_args] in Hs.
  - destruct (σ0 !! l) as [[sos|d|r]|] eqn:El; try discriminate.
    destruct (copy_dict_spec σ0 st l d Hinv El)
      as (l' & st' & Hcopy & Hinv' & Hsub & Hl' & Hout).
    rewrite Hcopy. eexists _, st'. split; [reflexivity|].
    split; [exact Hinv'|]. split; [exact Hsub|].
    cbn [read_args so_args so_name so_observation so_timestamp
         arg_locs flat_map app].
    rewrite Hl'. split; [exact Hs|].
    constructor; [exact Hout|constructor].
  - exists so, st. split; [reflexivity|]. split; [exact Hinv|].
    split; [reflexivity|]. rewrite Ea. split; [exact Hs|].
    cbn. rewrite Ea. constructor.
Qed.

Lemma copy_step_list_spec (σ0 : store) (sos : list StepObj) :
  forall (st : memo * store) (ss : list Step),
    copied σ0 st ->
    read_step_list σ0 sos = Some ss ->
    exists sos' st',
      copy_step_list st sos = Some (sos', st')
      /\ copied σ0 st'
      /\ snd st ⊆ snd st'
      /\ read_step_list (snd st') sos' = Some ss
      /\ Forall (fun k => k ∉ dom σ0) (arg_locs sos').
Proof.
  induction sos as [|so sos IH]; intros st ss Hinv Hss; cbn in Hss.
  - injection Hss as <-. exists [], st.
    split; [reflexivity|]. split; [exact Hinv|]. split; [reflexivity|].
    split; [reflexivity|constructor].
  - destruct (read_step σ0 so) as [s|] eqn:Es; [|discriminate].
    destruct (read_step_list σ0 sos) as [ss'|] eqn:Ess; [|discriminate].
    injection Hss as <-.
    destruct (copy_step_spec σ0 st so s Hinv Es)
      as (so' & st1 & Hc1 & Hinv1 & Hsub1 & Hr1 & Hout1).
    destruct (IH st1 ss' Hinv1 eq_refl)
      as (sos' & st2 & Hc2 & Hinv2 & Hsub2 & Hr2 & Hout2).
    exists (so' :: sos'), st2. cbn [copy_step_list]. rewrite Hc1, Hc2.
    split; [reflexivity|]. split; [exact Hinv2|].
    split; [now transitivity (snd st1)|].
    split.
    + cbn [read_step_list].
      now rewrite (read_step_weaken _ _ _ _ Hsub2 Hr1), Hr2.
    + unfold arg_locs in *. cbn [flat_map] in *.
      rewrite app_nil_r in Hout1.
      apply Forall_app. split; assumption.
Qed.

Lemma copy_list_spec (σ0 : store) (st : memo * store) (l : loc)
    (ss : list Step) :
  copied σ0 st ->
  read_steps σ0 l = Some ss ->
  exists l' st',
    copy_list st l = Some (l', st')
    /\ copied σ0 st'
    /\ snd st ⊆ snd st'
    /\ read_steps (snd st') l' = Some ss
    /\ Forall (fun k => k ∉ dom σ0) (list_locs (snd st') l').
Proof.
  destruct st as [m σ]. intros Hinv Hl.
  pose proof Hinv as [Hsub Hm]. cbn [fst snd] in *.
  pose proof (proj1 (read_steps_obj _ _ _) Hl) as Hv0.
  unfold copy_list. cbn [fst snd].
  destruct (m !! l) as [l'|] eqn:Em.
  - destruct (Hm _ _ Em) as [(v & Hv & Hv') Hfresh].
    rewrite Hv0 in Hv. injection Hv as <-.
    exists l', (m, σ). split; [reflexivity|]. split; [exact Hinv|].
    split; [reflexivity|]. cbn [snd].
    split; [now apply read_steps_obj|exact Hfresh].
  - unfold read_steps in Hl.
    destruct (σ0 !! l) as [[sos|d|r]|] eqn:El; try discriminate.
    rewrite (lookup_grows _ _ _ _ Hsub El).
    destruct (copy_step_list_spec σ0 sos (m, σ) ss Hinv Hl)
      as (sos' & [m1 σ1] & Hcopy & Hinv1 & Hsub1 & Hread & Hout).
    cbn [fst snd] in *. rewrite Hcopy. unfold alloc. cbn [fst snd].
    pose proof Hinv1 as [Hsub01 _]. cbn [snd] in Hsub01.
    pose proof (fresh_is_free σ1) as Hfree.
    set (l' := fresh (dom σ1)) in *.
    assert (Hl' : l' ∉ dom σ0) by now apply (outside_original σ0 σ1).
    assert (Hgrow : σ1 ⊆ <[l' := CSteps sos']> σ1)
      by now apply insert_subseteq.
    assert (Hread' : read_step_list (<[l' := CSteps sos']> σ1) sos' = Some ss)
      by now apply (read_step_list_weaken σ1).
    assert (Hlocs : Forall (fun k => k ∉ dom σ0)
                      (list_locs (<[l' := CSteps sos']> σ1) l')).
    { unfold list_locs. rewrite lookup_insert_eq.
      constructor; assumption. }
    exists l', (<[l := l']> m1, <[l' := CSteps sos']> σ1).
    split; [reflexivity|]. cbn [snd].
    split; [|split; [now transitivity σ1|split; [|exact Hlocs]]].
    + apply copied_extend with (VSteps ss); try assumption.
      unfold read_obj. now rewrite lookup_insert_eq, Hread'.
    + unfold read_steps. now rewrite lookup_insert_eq.
Qed.

Lemma copy_infos_spec (σ0 : store) (st : memo * store) (l : loc)
    (r : registry) :
  copied σ0 st ->
  read_infos σ0 l = Some r ->
  exists l' st',
    copy_infos st l = Some (l', st')
    /\ copied σ0 st'
    /\ snd st ⊆ snd st'
    /\ read_infos (snd st') l' = Some r
    /\ l' ∉ dom σ0.
Proof.
  destruct st as [m σ]. intros Hinv Hl.
  pose proof Hinv as [Hsub Hm]. cbn [fst snd] in *.
  pose proof (proj1 (read_infos_obj _ _ _) Hl) as Hv0.
  unfold copy_infos. cbn [fst snd].
  destruct (m !! l) as [l'|] eqn:Em.
  - destruct (Hm _ _ Em) as [(v & Hv & Hv') Hfresh].
    rewrite Hv0 in Hv. injection Hv as <-.
    exists l', (m, σ). split; [reflexivity|]. split; [exact Hinv|].
    split; [reflexivity|]. cbn [snd].
    split; [now apply read_infos_obj|].
    unfold list_locs in Hfresh. now inversion Hfresh.
  - unfold read_infos in Hl.
    destruct (σ0 !! l) as [[sos|d|r']|] eqn:El; try discriminate.
    injection Hl as ->.
    rewrite (lookup_grows _ _ _ _ Hsub El). unfold alloc.
    pose proof (fresh_is_free σ) as Hfree.
    set (l' := fresh (dom σ)) in *.
    assert (Hout : l' ∉ dom σ0) by now apply (outside_original σ0 σ).
    exists l', (<[l := l']> m, <[l' := CInfos r]> σ).
    split; [reflexivity|]. cbn [snd].
    split; [|split; [now apply insert_subseteq|split; [|exact Hout]]].
    + apply copied_extend with (VInfos r); try assumption.
      * unfold read_obj. now rewrite lookup_insert_eq.
      * unfold list_locs. rewrite lookup_insert_eq.
        constructor; [exact Hout|constructor].
    + unfold read_infos. now rewrite lookup_insert_eq.
Qed.

Lemma read_steps_is_Some (σ : store) (l : loc) (ss : list Step) :
  read_steps σ l = Some ss -> is_Some (σ !! l).
Proof. unfold read_steps. destruct (σ !! l); [eauto|done]. Qed.

Lemma deepcopy_spec (σ : store) (t : TraceObj) (tr : Trace) :
  read_trace σ t = Some tr ->
  exists r σ1,
    deepcopy σ t = Some (r, σ1)
    /\ σ ⊆ σ1
    /\ read_trace σ1 r = Some tr
    /\ Forall (fun k => k ∉ dom σ) (trace_locs σ1 r).
Proof.
  intros Hread. unfold read_trace in Hread.
  destruct (read_steps σ (t_steps t)) as [ss|] eqn:E1; [|discriminate].
  destruct (read_steps σ (t_low_level_steps t)) as [ls|] eqn:E2;
    [|discriminate].
  destruct (read_infos σ (t_action_infos t)) as [rg|] eqn:E3;
    [|discriminate].
  injection Hread as <-.
  assert (H0 : copied σ (∅, σ)).
  { split; [reflexivity|]. intros l l' H. cbn in H.
    rewrite lookup_empty in H. discriminate. }
  destruct (copy_list_spec σ _ _ _ H0 E1)
    as (s' & st1 & Hc1 & Hinv1 & Hsub1 & Hr1 & Hl1).
  destruct (copy_list_spec σ _ _ _ Hinv1 E2)
    as (l' & st2 & Hc2 & Hinv2 & Hsub2 & Hr2 & Hl2).
  destruct (copy_infos_spec σ _ _ _ Hinv2 E3)
    as (i' & st3 & Hc3 & Hinv3 & Hsub3 & Hr3 & Hl3).
  cbn [snd] in Hsub1.
  exists (mkTraceObj s' l' i' (t_task_description t)), (snd st3).
  unfold deepcopy. rewrite Hc1, Hc2, Hc3.
  split; [reflexivity|].
  split; [transitivity (snd st1); [exact Hsub1|];
          now transitivity (snd st2)|].
  assert (Hsub13 : snd st1 ⊆ snd st3) by now transitivity (snd st2).
  split.
  - unfold read_trace. cbn [t_steps t_low_level_steps t_action_infos
                              t_task_description].
    apply read_steps_obj in Hr1, Hr2.
    apply (read_obj_weaken _ _ _ _ Hsub13) in Hr1.
    apply (read_obj_weaken _ _ _ _ Hsub3) in Hr2.
    apply read_steps_obj in Hr1, Hr2.
    now rewrite Hr1, Hr2, Hr3.
  - unfold trace_locs. cbn [t_steps t_low_level_steps t_action_infos].
    rewrite (list_locs_weaken (snd st1) (snd st3) s' Hsub13)
      by now apply read_steps_is_Some with ss.
    rewrite (list_locs_weaken (snd st2) (snd st3) l' Hsub3)
      by now apply read_steps_is_Some with ls.
    apply Forall_app. split; [exact Hl1|].
    apply Forall_app. split; [exact Hl2|].
    constructor; [exact Hl3|constructor].
Qed.

(** ** Mutations of the copy *)

Lemma mutate_outside (σ0 : store) (ms : list mutation) :
  forall σ,
    σ0 ⊆ σ ->
    Forall (fun m => target m ∉ dom σ0) ms ->
    σ0 ⊆ mutate σ ms.
Proof.
  induction ms as [|m ms IH]; intros σ Hsub Hms; [exact Hsub|].
  inversion Hms as [|? ? Hm Hrest]; subst.
  cbn. apply IH; [|exact Hrest].
  destruct m as [l c]. cbn in *.
  apply insert_subseteq_r; [|exact Hsub].
  now apply not_elem_of_dom.
Qed.

(** C10. The [trace] property hands out a deep copy.  On a store where the
    environment's trace is readable, the copy succeeds, the returned trace
    object has the value of the internal trace, and every object it is
    made of is new.  Whatever sequence of mutations a caller applies to the
    objects of the returned trace, or to objects created later, the
    internal trace keeps its value: [is_final], [execute] and [save]
    behave as if nothing had been done. *)
Theorem trace_property_returns_a_deep_copy
    (σ : store) (he : HEnvironment) (env : Environment) :
  view σ he = Some env ->
  exists r σ1,
    trace σ he = Some (r, σ1)
    /\ read_trace σ1 r = Some (_trace env)
    /\ Forall (fun l => l ∉ dom σ) (trace_locs σ1 r)
    /\ forall ms,
         Forall (on_copy σ1 r) ms ->
         view (mutate σ1 ms) he = Some env
         /\ (forall now,
               h_is_final (mutate σ1 ms) he now = h_is_final σ he now)
         /\ (forall act now_final now_step,
               h_execute (mutate σ1 ms) he act now_final now_step
               = h_execute σ he act now_final now_step)
         /\ (forall label,
               h_save (mutate σ1 ms) he label = h_save σ he label).
Proof.
  intros Hview. unfold view in Hview.
  destruct (read_trace σ (h_trace he)) as [tr|] eqn:Hread; [|discriminate].
  injection Hview as <-.
  destruct (deepcopy_spec σ (h_trace he) tr Hread)
    as (r & σ1 & Hcopy & Hsub & Hr & Hnew).
  exists r, σ1. split; [exact Hcopy|]. split; [exact Hr|].
  split; [exact Hnew|].
  intros ms Hms.
  assert (Hout : Forall (fun m => target m ∉ dom σ) ms).
  { eapply Forall_impl; [exact Hms|]. intros m [Hin|Hfresh]; cbn.
    - rewrite Forall_forall in Hnew. now apply Hnew.
    - intros Hd. apply Hfresh. revert Hd. now apply subseteq_dom. }
  pose proof (mutate_outside σ ms σ1 Hsub Hout) as Hkeep.
  pose proof (read_trace_weaken _ _ _ _ Hkeep Hread) as Hread'.
  assert (Hv : view (mutate σ1 ms) he = view σ he).
  { unfold view. now rewrite Hread, Hread'. }
  split; [rewrite Hv; unfold view; now rewrite Hread|].
  unfold h_is_final, h_execute, h_save. rewrite Hv. repeat split.
Qed.

Lemma trace_property_returns_a_deep_copy_witness :
  exists r σ1,
    trace Sample.objects Sample.henv = Some (r, σ1)
    /\ read_trace σ1 r
       = Some (mkTrace Sample.shared_steps [] Sample.infos "task")
    /\ view (mutate σ1 [Write (t_steps r) (CSteps []);
                        Write (t_action_infos r) (CInfos [])])
         Sample.henv
       = view Sample.objects Sample.henv.
Proof.
  destruct (trace_property_returns_a_deep_copy Sample.objects Sample.henv
              (set_trace Sample.env0
                 (mkTrace Sample.shared_steps [] Sample.infos "task")))
    as (r & σ1 & Hcopy & Hr & Hnew & Hframe).
  - reflexivity.
  - exists r, σ1. split; [exact Hcopy|]. split; [exact Hr|].
    destruct (Hframe [Write (t_steps r) (CSteps []);
                      Write (t_action_infos r) (CInfos [])]) as [Hv _].
    + constructor; [|constructor; [|constructor]];
        left; unfold trace_locs, list_locs; cbn [target].
      * apply elem_of_app. left. apply list_elem_of_here.
      * apply elem_of_app. right. apply elem_of_app. right.
        apply list_elem_of_here.
    + rewrite Hv. reflexivity.
Defined.

(** Had the property returned the internal object itself, a caller could
    end the session's budget accounting from outside. *)
Example an_alias_would_expose_the_trace :
  h_is_final (mutate Sample.objects
                [Write (t_steps (h_trace Sample.henv))
                   (CSteps [mkStepObj "Final Answer" (ValOther "") "end" 0])])
    Sample.henv 0
  = Some true
  /\ h_is_final Sample.objects Sample.henv 0 = Some false.
Proof. split; vm_compute; reflexivity. Qed.

End Copies.

(** * Further properties of the session controller *)

(** ** A closed session *)

Lemma closed_is_final (env : Environment) (now : Q) :
  closed_by_trace env = true -> is_final env now = true.
Proof.
  unfold closed_by_trace, is_final. intros H. now rewrite H.
Qed.

Lemma execute_keeps_closed (env : Environment) (act : Action)
    (now_final now_step : Q) :
  closed_by_trace env = true ->
  closed_by_trace (snd (execute env act now_final now_step)) = true.
Proof.
  unfold closed_by_trace. intros H.
  rewrite execute_keeps_budget, execute_steps.
  destruct (fst (execute env act now_final now_step)) as [obs|e];
    [|exact H].
  apply orb_true_iff in H as [H|H]; apply orb_true_iff.
  - left. apply Z.leb_le in H. apply Z.leb_le. rewrite length_app. lia.
  - right. rewrite existsb_app, H. reflexivity.
Qed.


Lemma session_keeps_closed (env : Environment) (calls : list Call) :
  closed_by_trace env = true ->
  closed_by_trace (fst (session env calls)) = true.
Proof.
  revert env. induction calls as [|c calls IH]; intros env H; [exact H|].
  cbn [session].
  pose proof (execute_keeps_closed env (c_action c) (c_now_final c)
                (c_now_step c) H) as Hclosed.
  destruct (execute env (c_action c) (c_now_final c) (c_now_step c))
    as [[obs|e] env1]; cbn [fst snd] in *.
  - now apply IH.
  - exact Hclosed.
Qed.



(** An action named "Final Answer" is answered by "end" whatever the state
    of the session, its arguments and the registry; no callable is entered,
    and from then on the session is final at every clock reading, whatever
    calls follow. *)
Theorem final_answer_closes_the_session
    (env : Environment) (act : Action) (now_final now_step : Q) :
  name act = "Final Answer" ->
  fst (execute env act now_final now_step) = Returned "end"
  /\ invoked (snd (execute env act now_final now_step)) = invoked env
  /\ _work_dir (snd (execute env act now_final now_step)) = _work_dir env
  /\ forall calls now,
       is_final (fst (session (snd (execute env act now_final now_step)) calls))
         now = true.
Proof.
  intros Hname.
  assert (Hend : fst (execute env act now_final now_step) = Returned "end").
  { unfold execute, observe. now rewrite Hname. }
  assert (Hclosed : closed_by_trace (snd (execute env act now_final now_step))
                    = true).
  { unfold closed_by_trace. rewrite execute_steps, Hend.
    rewrite existsb_app. cbn. rewrite Hname. cbn.
    now rewrite !orb_true_r. }
  split; [exact Hend|].
  split; [unfold execute, observe; now rewrite Hname|].
  split; [unfold execute, observe; now rewrite Hname|].
  intros calls now. apply closed_is_final. now apply session_keeps_closed.
Qed.

Lemma final_answer_closes_the_session_witness :
  fst (execute Sample.env0 More.answer (1 # 1) (2 # 1)) = Returned "end"
  /\ is_final (fst (session (snd (execute Sample.env0 More.answer (1 # 1) (2 # 1)))
                      [mkCall (Sample.say "a") (3 # 1) (4 # 1)]))
       (5 # 1)
     = true.
Proof.
  pose proof (final_answer_closes_the_session Sample.env0 More.answer
                (1 # 1) (2 # 1) eq_refl) as (H1 & _ & _ & H2).
  split; [exact H1|apply H2].
Defined.

(** ** What is on disk *)

Lemma observe_keeps_log (env : Environment) (act : Action) (now : Q) :
  _log_traces (snd (observe env act now)) = _log_traces env
  /\ _log_trace_json (snd (observe env act now)) = _log_trace_json env.
Proof.
  unfold observe.
  destruct (String.eqb (name act) "Final Answer"); [split; reflexivity|].
  destruct (is_final env now); [split; reflexivity|].
  destruct (dict_get (_action_infos env) (name act)) as [info|];
    [|split; reflexivity].
  destruct (args act) as [d|raw]; [|split; reflexivity].
  destruct (call_function env info d _) as [eff entered].
  destruct (outcome eff); split; reflexivity.
Qed.

Lemma execute_log (env : Environment) (act : Action) (now_final now_step : Q) :
  match fst (execute env act now_final now_step) with
  | Returned _ =>
      _log_trace_json (snd (execute env act now_final now_step))
      = Some (_trace (snd (execute env act now_final now_step)))
      /\ _log_traces (snd (execute env act now_final now_step))
         = <[snapshot_folder (length (steps (_trace env)))
               := _work_dir (snd (execute env act now_final now_step))]>
             (_log_traces env)
  | Raised _ =>
      _log_trace_json (snd (execute env act now_final now_step))
      = _log_trace_json env
      /\ _log_traces (snd (execute env act now_final now_step))
         = _log_traces env
  end.
Proof.
  unfold execute.
  destruct (observe_keeps_log env act now_final) as [Ht Hj].
  destruct (observe env act now_final) as [[obs|e] env']; cbn in *.
  - rewrite Ht. split; reflexivity.
  - split; assumption.
Qed.

(** When [execute] returns, [trace.json] holds the trace as it now is in
    memory, new step included, and the snapshot folder of the new step
    index holds the workspace as the call left it.  When an exception
    leaves [execute] before [save] is entered (from the registry call, or
    at an interruption before line 273), nothing is written: both files
    stay as they were.  When [save] fails on [trace.json] the snapshot
    folders stay as they were, and when it fails on the snapshot folder
    [trace.json] already holds the trace with the new step. *)
Theorem a_returned_call_is_on_disk
    (i : interruption) (env : Environment) (act : Action)
    (now_final now_step : Q) :
  match Interrupted.execute i env act now_final now_step with
  | (Returned _, env') =>
      _log_trace_json env' = Some (_trace env')
      /\ _log_traces env' !! snapshot_folder (length (steps (_trace env)))
         = Some (_work_dir env')
  | (Raised _, env') =>
      match fst (observe env act now_final), i with
      | Returned _, InTraceJson _ remains =>
          _log_trace_json env' = remains
          /\ _log_traces env' = _log_traces env
      | Returned obs, InSnapshot _ _ =>
          _log_trace_json env' = Some (_trace env')
          /\ steps (_trace env')
             = steps (_trace env) ++ [mkStep act obs now_step]
      | Returned _, BeforeReturn _ =>
          _log_trace_json env' = Some (_trace env')
          /\ _log_traces env' !! snapshot_folder (length (steps (_trace env)))
             = Some (_work_dir env')
      | _, _ =>
          _log_trace_json env' = _log_trace_json env
          /\ _log_traces env' = _log_traces env
      end
  end.
Proof.
  unfold Interrupted.execute.
  destruct (observe_keeps_log env act now_final) as [Ht Hj].
  pose proof (observe_keeps_steps env act now_final) as Hs.
  destruct (observe env act now_final) as [[obs|e] env'];
    cbn [fst snd] in *.
  - destruct i as [|e|e|e remains|e remains|e]; cbn;
      rewrite ?Ht, ?Hj, ?Hs; split; try reflexivity;
      apply lookup_insert_eq.
  - destruct i; cbn; rewrite ?Ht, ?Hj; split; reflexivity.
Qed.

(** A full disk while the snapshot is copied: the exception leaves
    [execute], and [trace.json] holds the step all the same. *)
Example a_failed_snapshot_leaves_the_trace_on_disk :
  _log_trace_json
    (snd (Interrupted.execute
            (InSnapshot (OtherException "No space left on device") None)
            Sample.env0 (Sample.say "a") (1 # 1) (2 # 1)))
  = Some (mkTrace [mkStep (Sample.say "a") "ok" (2 # 1)] []
            Sample.infos (task_description (_trace Sample.env0))).
Proof. reflexivity. Qed.

(** ** Snapshot folders *)

Lemma length_append (a b : string) :
  String.length (a +:+ b) = String.length a + String.length b.
Proof.
  induction a as [|c a IH]; [reflexivity|].
  change (String c a +:+ b) with (String c (a +:+ b)). cbn. now rewrite IH.
Qed.

Lemma append_cancel_l (s a b : string) : s +:+ a = s +:+ b -> a = b.
Proof.
  induction s as [|c s IH]; [trivial|].
  change (String c s +:+ a) with (String c (s +:+ a)).
  change (String c s +:+ b) with (String c (s +:+ b)).
  intros [= H]. now apply IH.
Qed.

Lemma append_cancel_r (t a b : string) : a +:+ t = b +:+ t -> a = b.
Proof.
  revert b. induction a as [|c a IH]; intros b H.
  - destruct b as [|d b]; [reflexivity|].
    apply (f_equal String.length) in H. rewrite !length_append in H.
    cbn [String.length] in H. lia.
  - destruct b as [|d b].
    + apply (f_equal String.length) in H. rewrite !length_append in H.
      cbn [String.length] in H. lia.
    + change (String c a +:+ t) with (String c (a +:+ t)) in H.
      change (String d b +:+ t) with (String d (b +:+ t)) in H.
      injection H as -> H. f_equal. now apply IH.
Qed.

Lemma to_uint_not_Nil (n : nat) : Nat.to_uint n <> Decimal.Nil.
Proof.
  intros H. pose proof (DecimalNat.Unsigned.of_to n) as Hn.
  rewrite H in Hn. cbn in Hn. subst n. discriminate H.
Qed.

Lemma str_of_nat_inj (n m : nat) :
  PyStr.str_of_nat n = PyStr.str_of_nat m -> n = m.
Proof.
  unfold PyStr.str_of_nat. intros H.
  apply DecimalNat.Unsigned.to_uint_inj.
  pose proof (NilZero.usu (Nat.to_uint n) (to_uint_not_Nil n)) as Hn.
  pose proof (NilZero.usu (Nat.to_uint m) (to_uint_not_Nil m)) as Hm.
  rewrite H in Hn. congruence.
Qed.

Lemma snapshot_folder_inj (i j : nat) :
  snapshot_folder i = snapshot_folder j -> i = j.
Proof.
  unfold snapshot_folder. intros H.
  apply append_cancel_l, append_cancel_r in H. now apply str_of_nat_inj.
Qed.

Lemma session_keeps_older_snapshots (calls : list Call) :
  forall env j,
    j < length (steps (_trace env)) ->
    _log_traces (fst (session env calls)) !! snapshot_folder j
    = _log_traces env !! snapshot_folder j.
Proof.
  induction calls as [|c calls IH]; intros env j Hj; [reflexivity|].
  cbn [session].
  pose proof (execute_log env (c_action c) (c_now_final c) (c_now_step c))
    as Hlog.
  pose proof (execute_steps env (c_action c) (c_now_final c) (c_now_step c))
    as Hsteps.
  destruct (execute env (c_action c) (c_now_final c) (c_now_step c))
    as [[obs|e] env1]; cbn [fst snd] in *; destruct Hlog as [_ Ht].
  - rewrite IH by (rewrite Hsteps, length_app; cbn; lia).
    rewrite Ht. apply lookup_insert_ne.
    intros Heq. apply snapshot_folder_inj in Heq. lia.
  - now rewrite Ht.
Qed.

(** In a session in which every call returns, the snapshot folder of each
    step index holds, at the end, the workspace as it was when the call of
    that step had just returned: later calls write other folders and leave
    it alone. *)
Theorem snapshots_record_the_workspace_of_each_step (calls : list Call) :
  forall env i,
    snd (session env calls) = None ->
    i < length calls ->
    _log_traces (fst (session env calls))
      !! snapshot_folder (length (steps (_trace env)) + i)
    = Some (_work_dir (fst (session env (firstn (S i) calls)))).
Proof.
  induction calls as [|c calls IH]; intros env i Hall Hi; [cbn in Hi; lia|].
  cbn [session firstn] in *.
  pose proof (execute_log env (c_action c) (c_now_final c) (c_now_step c))
    as Hlog.
  pose proof (execute_steps env (c_action c) (c_now_final c) (c_now_step c))
    as Hsteps.
  destruct (execute env (c_action c) (c_now_final c) (c_now_step c))
    as [[obs|e] env1]; cbn [fst snd] in *; [|discriminate].
  destruct Hlog as [_ Ht].
  destruct i as [|i].
  - cbn [firstn session fst]. rewrite Nat.add_0_r.
    rewrite session_keeps_older_snapshots
      by (rewrite Hsteps, length_app; cbn; lia).
    rewrite Ht. apply lookup_insert_eq.
  - specialize (IH env1 i Hall ltac:(cbn in Hi; lia)).
    rewrite Hsteps, length_app in IH. cbn [length] in IH.
    replace (length (steps (_trace env)) + S i)
      with (length (steps (_trace env)) + 1 + i) by lia.
    exact IH.
Qed.

Lemma snapshots_record_the_workspace_of_each_step_witness :
  _log_traces (fst (session Sample.env0 Sample.three_calls))
    !! snapshot_folder (length (steps (_trace Sample.env0)) + 1)
  = Some (_work_dir (fst (session Sample.env0
                            (firstn 2 Sample.three_calls)))).
Proof.
  apply (snapshots_record_the_workspace_of_each_step Sample.three_calls
           Sample.env0 1).
  - reflexivity.
  - cbn. lia.
Defined.

(** ** The step budget bounds the registry calls *)

Lemma execute_invoked (env : Environment) (act : Action)
    (now_final now_step : Q) :
  invoked (snd (execute env act now_final now_step)) = invoked env
  \/ (length (invoked (snd (execute env act now_final now_step)))
      = length (invoked env) + 1
      /\ (Z.of_nat (length (steps (_trace env))) < max_steps env)%Z).
Proof.
  assert (H : invoked (snd (observe env act now_final)) = invoked env
              \/ (length (invoked (snd (observe env act now_final)))
                  = length (invoked env) + 1
                  /\ (Z.of_nat (length (steps (_trace env))) < max_steps env)%Z)).
  { unfold observe.
    destruct (String.eqb (name act) "Final Answer"); [now left|].
    destruct (is_final env now_final) eqn:Efin; [now left|].
    destruct (dict_get (_action_infos env) (name act)) as [info|];
      [|now left].
    destruct (args act) as [d|raw]; [|now left].
    destruct (call_function env info d _) as [eff [|]].
    - right. split.
      + destruct (outcome eff); cbn; rewrite length_app; reflexivity.
      + unfold is_final in Efin.
        apply orb_false_iff in Efin as [Efin _].
        apply orb_false_iff in Efin as [Efin _].
        apply Z.leb_gt in Efin. exact Efin.
    - left. destruct (outcome eff); reflexivity. }
  unfold execute.
  destruct (observe env act now_final) as [[obs|e] env']; cbn in *; exact H.
Qed.

(** A session enters registry callables at most as many times as the step
    budget leaves room for on its trace: not at all when the trace already
    holds [max_steps] steps, and never more than [max_steps] minus the
    number of steps it started with. *)
Theorem registry_calls_stay_within_the_step_budget (calls : list Call) :
  forall env,
    (Z.of_nat (length (invoked (fst (session env calls))))
     - Z.of_nat (length (invoked env))
     <= Z.max 0 (max_steps env - Z.of_nat (length (steps (_trace env)))))%Z.
Proof.
  induction calls as [|c calls IH]; intros env; [cbn; lia|].
  cbn [session].
  pose proof (execute_invoked env (c_action c) (c_now_final c) (c_now_step c))
    as Hinv.
  pose proof (execute_steps env (c_action c) (c_now_final c) (c_now_step c))
    as Hsteps.
  pose proof (execute_keeps_budget env (c_action c) (c_now_final c)
                (c_now_step c)) as Hb.
  destruct (execute env (c_action c) (c_now_final c) (c_now_step c))
    as [[obs|e] env1]; cbn [fst snd] in *.
  - specialize (IH env1). rewrite Hb, Hsteps, length_app in IH.
    cbn [length] in IH.
    destruct Hinv as [Hinv|[Hinv Hroom]]; [rewrite Hinv in IH|]; lia.
  - destruct Hinv as [Hinv|[Hinv Hroom]]; [rewrite Hinv|]; lia.
Qed.

(** ** Arguments that repeat a fixed keyword *)

(** When the arguments of a registered action hold one of the keywords that
    [execute] itself passes ([log_file], [trace] and the static ones), the
    callable is not entered: the call is answered by "EnvError: " and the
    usage hint, the workspace and the low-level steps stay as they were,
    and the step is recorded. *)
Theorem fixed_keywords_cannot_be_overridden
    (env : Environment) (act : Action) (info : ActionInfo)
    (d : list (string * string)) (k : string) (now_final now_step : Q) :
  name act <> "Final Answer" ->
  is_final env now_final = false ->
  dict_get (_action_infos env) (name act) = Some info ->
  args act = ArgsDict d ->
  In k (dict_keys d) ->
  In k fixed_keywords ->
  fst (execute env act now_final now_step)
  = Returned ("EnvError: " +:+ invalid_action_error (name act) (usage info))
  /\ invoked (snd (execute env act now_final now_step)) = invoked env
  /\ _work_dir (snd (execute env act now_final now_step)) = _work_dir env
  /\ low_level_steps (_trace (snd (execute env act now_final now_step)))
     = low_level_steps (_trace env)
  /\ length (steps (_trace (snd (execute env act now_final now_step))))
     = length (steps (_trace env)) + 1.
Proof.
  intros Hname Hfin Hget Hargs Hk Hfixed.
  apply String.eqb_neq in Hname.
  assert (Hclash : existsb (fun k => str_in k fixed_keywords) (dict_keys d)
                   = true).
  { apply existsb_exists. exists k. split; [exact Hk|].
    unfold str_in. apply existsb_exists. exists k.
    split; [exact Hfixed|apply String.eqb_refl]. }
  unfold execute, observe, call_function.
  rewrite Hname, Hfin, Hget, Hargs, Hclash. cbn.
  rewrite app_nil_r, length_app. cbn. repeat split.
Qed.

Lemma fixed_keywords_cannot_be_overridden_witness :
  fst (execute Sample.env0
         (mkAction "Echo" (ArgsDict [("text", "a"); ("trace", "mine")]))
         (1 # 1) (2 # 1))
  = Returned ("EnvError: " +:+ invalid_action_error "Echo" (usage Sample.echo))
  /\ invoked (snd (execute Sample.env0
                     (mkAction "Echo" (ArgsDict [("text", "a"); ("trace", "mine")]))
                     (1 # 1) (2 # 1)))
     = invoked Sample.env0.
Proof.
  pose proof (fixed_keywords_cannot_be_overridden Sample.env0
                (mkAction "Echo" (ArgsDict [("text", "a"); ("trace", "mine")]))
                Sample.echo [("text", "a"); ("trace", "mine")] "trace"
                (1 # 1) (2 # 1)) as H.
  destruct H as (H1 & H2 & _).
  - vm_compute. discriminate.
  - reflexivity.
  - reflexivity.
  - reflexivity.
  - cbn. tauto.
  - cbn. tauto.
  - split; assumption.
Defined.

(** ** Resume indices outside the prior trace *)

Lemma last_item_nil_iff {A : Type} (l : list A) :
  last_item l = None <-> l = [].
Proof.
  unfold last_item. split.
  - intros H. apply nth_error_None in H.
    destruct l as [|a l]; [reflexivity|cbn in H; lia].
  - intros ->. reflexivity.
Qed.

Lemma slice_to_nil_iff {A : Type} (l : list A) (stop : Z) :
  slice_to l stop = []
  <-> l = [] \/ stop = 0%Z \/ (stop <= - Z.of_nat (length l))%Z.
Proof.
  unfold slice_to. split.
  - intros H. destruct l as [|a l]; [now left|right].
    apply (f_equal (@length A)) in H. rewrite length_firstn in H.
    cbn [length] in *.
    destruct (Z.ltb_spec stop 0); lia.
  - intros [->|H]; [now rewrite firstn_nil|].
    destruct (Z.ltb_spec stop 0).
    + destruct H as [H|H]; [lia|].
      replace (Z.to_nat (Z.max 0 (stop + Z.of_nat (length l)))) with 0 by lia.
      reflexivity.
    + replace (Z.to_nat (Z.min stop (Z.of_nat (length l)))) with 0 by lia.
      reflexivity.
Qed.

(** Resuming fails, with the [IndexError] of [steps[-1]], exactly when the
    slice [steps[:resume_step+1]] is empty: when the prior trace has no
    step, when [resume_step] is -1, or when it lies below minus the number
    of prior steps.  In every other case a trace with at least one step
    comes back. *)
Theorem resume_fails_exactly_on_an_empty_slice
    (prev : Trace) (k : Z) (infos : registry) (problem : string) :
  (steps prev = [] \/ k = (-1)%Z
   \/ (k < - Z.of_nat (length (steps prev)))%Z ->
   _initialize_trace (Some prev) k infos problem
   = Raised (OtherException "list index out of range"))
  /\ (~ (steps prev = [] \/ k = (-1)%Z
         \/ (k < - Z.of_nat (length (steps prev)))%Z) ->
      exists restored,
        _initialize_trace (Some prev) k infos problem = Returned restored
        /\ steps restored <> []).
Proof.
  unfold _initialize_trace. split.
  - intros H.
    assert (Hnil : slice_to (steps prev) (k + 1) = []).
    { apply slice_to_nil_iff. destruct H as [H|[H|H]]; [now left|right..]; lia. }
    rewrite Hnil. reflexivity.
  - intros H.
    destruct (last_item (slice_to (steps prev) (k + 1))) as [s|] eqn:E.
    + eexists. split; [reflexivity|]. cbn [steps].
      intros Hnil. rewrite Hnil in E. discriminate.
    + apply last_item_nil_iff, slice_to_nil_iff in E. exfalso. apply H.
      destruct E as [E|[E|E]]; [now left|right; left; lia|right; right; lia].
Qed.

Lemma resume_fails_exactly_on_an_empty_slice_witness :
  _initialize_trace (Some Sample.prev_trace) (-1) Sample.infos "task"
  = Raised (OtherException "list index out of range").
Proof.
  apply (proj1 (resume_fails_exactly_on_an_empty_slice Sample.prev_trace (-1)
                  Sample.infos "task")).
  right. left. reflexivity.
Defined.

(** A resume index is only a slice bound.  At or beyond the last step it
    keeps the whole prior trace, without an error; from -2 down to minus
    the number of prior steps it counts from the end and drops the last
    steps.  In both cases the low-level steps kept are those recorded
    strictly before the last step kept. *)
Theorem resume_index_is_a_slice_bound
    (prev : Trace) (k : Z) (infos : registry) (problem : string) :
  steps prev <> [] ->
  ((Z.of_nat (length (steps prev)) - 1 <= k)%Z ->
   exists last_step,
     last_item (steps prev) = Some last_step
     /\ _initialize_trace (Some prev) k infos problem
        = Returned
            (mkTrace (steps prev)
               (List.filter
                  (fun s => Qltb (timestamp s) (timestamp last_step))
                  (low_level_steps prev))
               infos problem))
  /\ ((- Z.of_nat (length (steps prev)) <= k <= -2)%Z ->
      exists last_step,
        last_item
          (firstn (Z.to_nat (Z.of_nat (length (steps prev)) + k + 1))
             (steps prev))
        = Some last_step
        /\ _initialize_trace (Some prev) k infos problem
           = Returned
               (mkTrace
                  (firstn (Z.to_nat (Z.of_nat (length (steps prev)) + k + 1))
                     (steps prev))
                  (List.filter
                     (fun s => Qltb (timestamp s) (timestamp last_step))
                     (low_level_steps prev))
                  infos problem)).
Proof.
  intros Hne.
  assert (Hlen : 0 < length (steps prev)).
  { destruct (steps prev); [congruence|cbn; lia]. }
  split; intros Hk.
  - assert (Hslice : slice_to (steps prev) (k + 1) = steps prev).
    { unfold slice_to. destruct (Z.ltb_spec (k + 1) 0); [lia|].
      apply firstn_all2. lia. }
    unfold _initialize_trace. rewrite Hslice.
    destruct (last_item (steps prev)) as [s|] eqn:E.
    + exists s. split; reflexivity.
    + apply last_item_nil_iff in E. contradiction.
  - assert (Hslice : slice_to (steps prev) (k + 1)
                     = firstn (Z.to_nat (Z.of_nat (length (steps prev)) + k + 1))
                         (steps prev)).
    { unfold slice_to. destruct (Z.ltb_spec (k + 1) 0); [|lia].
      f_equal. lia. }
    unfold _initialize_trace. rewrite Hslice.
    destruct (last_item (firstn _ (steps prev))) as [s|] eqn:E.
    + exists s. split; reflexivity.
    + exfalso. apply last_item_nil_iff in E.
      apply (f_equal (@length Step)) in E. rewrite length_firstn in E.
      cbn [length] in E. lia.
Qed.

Lemma resume_index_is_a_slice_bound_witness :
  (exists last_step,
     last_item (steps Sample.prev_trace) = Some last_step
     /\ _initialize_trace (Some Sample.prev_trace) 100 Sample.infos "task"
        = Returned
            (mkTrace (steps Sample.prev_trace)
               (List.filter
                  (fun s => Qltb (timestamp s) (timestamp last_step))
                  (low_level_steps Sample.prev_trace))
               Sample.infos "task"))
  /\ length (steps match _initialize_trace (Some Sample.prev_trace) (-3)
                           Sample.infos "task" with
                   | Returned t => t
                   | Raised _ => Sample.prev_trace
                   end)
     = 3.
Proof.
  destruct (resume_index_is_a_slice_bound Sample.prev_trace 100 Sample.infos
              "task") as [Hhigh _]; [discriminate|].
  destruct (resume_index_is_a_slice_bound Sample.prev_trace (-3) Sample.infos
              "task") as [_ Hlow]; [discriminate|].
  split.
  - apply Hhigh. cbn. lia.
  - destruct Hlow as (s & _ & ->); [cbn; lia|]. reflexivity.
Defined.

(** ** The trace as a record of the calls *)

Lemma session_keeps_older_steps (calls : list Call) :
  forall env j,
    j < length (steps (_trace env)) ->
    nth_error (steps (_trace (fst (session env calls)))) j
    = nth_error (steps (_trace env)) j.
Proof.
  induction calls as [|c calls IH]; intros env j Hj; [reflexivity|].
  cbn [session].
  pose proof (execute_steps env (c_action c) (c_now_final c) (c_now_step c))
    as Hsteps.
  destruct (execute env (c_action c) (c_now_final c) (c_now_step c))
    as [[obs|e] env1]; cbn [fst snd] in *.
  - rewrite IH by (rewrite Hsteps, length_app; cbn; lia).
    rewrite Hsteps. now apply nth_error_app1.
  - now rewrite Hsteps.
Qed.

(** In a session in which every call returns, the trace records the calls
    one by one and in order: the step that the [i]-th call added holds the
    action of that call, the observation that this very call returned, and
    its step time, and later calls leave it as it is. *)
Theorem trace_records_every_call (calls : list Call) :
  forall env i c,
    snd (session env calls) = None ->
    nth_error calls i = Some c ->
    exists obs,
      fst (execute (fst (session env (firstn i calls))) (c_action c)
             (c_now_final c) (c_now_step c))
      = Returned obs
      /\ nth_error (steps (_trace (fst (session env calls))))
           (length (steps (_trace env)) + i)
         = Some (mkStep (c_action c) obs (c_now_step c)).
Proof.
  induction calls as [|c0 calls IH]; intros env i c Hall Hc;
    [destruct i; discriminate|].
  cbn [session] in *.
  pose proof (execute_steps env (c_action c0) (c_now_final c0) (c_now_step c0))
    as Hsteps.
  destruct (execute env (c_action c0) (c_now_final c0) (c_now_step c0))
    as [[obs0|e] env1] eqn:E; cbn [fst snd] in *; [|discriminate].
  destruct i as [|i].
  - injection Hc as <-. cbn [firstn session fst]. rewrite E.
    exists obs0. split; [reflexivity|].
    rewrite Nat.add_0_r.
    rewrite session_keeps_older_steps
      by (rewrite Hsteps, length_app; cbn; lia).
    rewrite Hsteps, nth_error_app2, Nat.sub_diag by lia. reflexivity.
  - cbn [nth_error] in Hc.
    destruct (IH env1 i c Hall Hc) as (obs & Hobs & Hnth).
    exists obs. cbn [firstn session]. rewrite E. split; [exact Hobs|].
    rewrite Hsteps, length_app in Hnth. cbn [length] in Hnth.
    replace (length (steps (_trace env)) + S i)
      with (length (steps (_trace env)) + 1 + i) by lia.
    exact Hnth.
Qed.

Lemma trace_records_every_call_witness :
  exists obs,
    fst (execute (fst (session Sample.env0 (firstn 1 Sample.three_calls)))
           (Sample.say "b") (3 # 1) (4 # 1))
    = Returned obs
    /\ nth_error (steps (_trace (fst (session Sample.env0 Sample.three_calls))))
         (length (steps (_trace Sample.env0)) + 1)
       = Some (mkStep (Sample.say "b") obs (4 # 1)).
Proof.
  apply (trace_records_every_call Sample.three_calls Sample.env0 1
           (mkCall (Sample.say "b") (3 # 1) (4 # 1))); reflexivity.
Defined.

(** ** The wall-clock budget *)

(** The wall-clock budget is checked when a call begins, and only then.
    When more than [max_time] has passed since the start, an action not
    named "Final Answer" is answered by the shut-down observation and no
    callable is entered.  When exactly [max_time] or less has passed, the
    step budget is not spent and no final answer was given, a registered
    action with mapping arguments is still carried out. *)
Theorem wall_clock_budget_is_checked_at_the_call
    (env : Environment) (act : Action) (now_final now_step : Q) :
  name act <> "Final Answer" ->
  ((inject_Z (max_time env) < now_final - _start_time env)%Q ->
   fst (execute env act now_final now_step) = Returned shut_down_observation
   /\ invoked (snd (execute env act now_final now_step)) = invoked env)
  /\ ((now_final - _start_time env <= inject_Z (max_time env))%Q ->
      closed_by_trace env = false ->
      forall info d,
        dict_get (_action_infos env) (name act) = Some info ->
        args act = ArgsDict d ->
        existsb (fun k => str_in k fixed_keywords) (dict_keys d) = false ->
        invoked (snd (execute env act now_final now_step))
        = invoked env ++ [name act]).
Proof.
  intros Hname. apply String.eqb_neq in Hname. split.
  - intros Hlate.
    assert (Hfin : is_final env now_final = true).
    { unfold is_final. apply Qltb_lt in Hlate. rewrite Hlate.
      now rewrite orb_true_r. }
    unfold execute, observe. rewrite Hname, Hfin. split; reflexivity.
  - intros Hintime Hopen info d Hget Hargs Hkeys.
    assert (Hfin : is_final env now_final = false).
    { unfold is_final. unfold closed_by_trace in Hopen. rewrite Hopen.
      cbn [orb]. unfold Qltb. apply negb_false_iff.
      now apply Qle_bool_iff. }
    unfold execute, observe, call_function.
    rewrite Hname, Hfin, Hget, Hargs, Hkeys.
    destruct (outcome (function info _)) as [obs|e]; [reflexivity|].
    destruct (normalize _ _ e); reflexivity.
Qed.

Lemma wall_clock_budget_is_checked_at_the_call_witness :
  (fst (execute Sample.env0 (Sample.say "late") (18001 # 1) (18002 # 1))
   = Returned shut_down_observation
   /\ invoked (snd (execute Sample.env0 (Sample.say "late") (18001 # 1)
                      (18002 # 1)))
      = invoked Sample.env0)
  /\ invoked (snd (execute Sample.env0 (Sample.say "in time") (18000 # 1)
                     (18002 # 1)))
     = invoked Sample.env0 ++ [name (Sample.say "in time")].
Proof.
  split.
  - apply (proj1 (wall_clock_budget_is_checked_at_the_call Sample.env0
                    (Sample.say "late") (18001 # 1) (18002 # 1)
                    ltac:(discriminate))).
    reflexivity.
  - apply (proj2 (wall_clock_budget_is_checked_at_the_call Sample.env0
                    (Sample.say "in time") (18000 # 1) (18002 # 1)
                    ltac:(discriminate)))
      with (info := Sample.echo) (d := [("text", "in time")]);
      try reflexivity.
    discriminate.
Defined.

Section BlockSizes.

Import Agent.

Lemma length_substring (n m : nat) (s : string) :
  String.length (String.substring n m s) = Nat.min m (String.length s - n).
Proof.
  revert n m. induction s as [|c s IH]; intros n m.
  - destruct n, m; reflexivity.
  - destruct n as [|n].
    + destruct m as [|m]; [reflexivity|].
      cbn [String.substring String.length]. rewrite IH. lia.
    + cbn [String.substring String.length]. rewrite IH. reflexivity.
Qed.

(** No block of a long observation is empty, and every block but the last
    holds exactly 10,000 characters: block [k] holds the characters from
    [10000 * k] on, 10,000 of them or as many as are left. *)
Theorem blocks_are_full_but_the_last (obs : string) (k : nat) (b : string) :
  nth_error (blocks bs obs) k = Some b ->
  b = String.substring (k * bs) bs obs
  /\ String.length b = Nat.min bs (String.length obs - k * bs)
  /\ 0 < String.length b.
Proof.
  unfold blocks, range_step. rewrite map_map. intros H.
  pose proof bs_positive as Hbs.
  assert (Hk : k < (String.length obs + bs - 1) / bs).
  { assert (Hsome : nth_error
                       (map (fun x => String.substring (x * bs) bs obs)
                          (seq 0 ((String.length obs + bs - 1) / bs))) k
                     <> None) by congruence.
    apply nth_error_Some in Hsome.
    now rewrite length_map, length_seq in Hsome. }
  rewrite nth_error_map, nth_error_seq in H.
  destruct (Nat.ltb_spec k ((String.length obs + bs - 1) / bs)); [|lia].
  change (0 + k) with k in H. cbn [option_map] in H. injection H as <-.
  split; [reflexivity|]. rewrite length_substring.
  split; [reflexivity|].
  assert (k * bs < String.length obs).
  { pose proof (Nat.div_mod_eq (String.length obs + bs - 1) bs) as Hdm.
    pose proof (Nat.mod_upper_bound (String.length obs + bs - 1) bs) as Hr.
    nia. }
  lia.
Qed.

Lemma blocks_are_full_but_the_last_witness :
  String.substring (2 * bs) bs (Sample.long_observation (2 * bs + 1))
  = String.substring (2 * bs) bs (Sample.long_observation (2 * bs + 1))
  /\ String.length
       (String.substring (2 * bs) bs (Sample.long_observation (2 * bs + 1)))
     = Nat.min bs
         (String.length (Sample.long_observation (2 * bs + 1)) - 2 * bs)
  /\ 0 < String.length
           (String.substring (2 * bs) bs
              (Sample.long_observation (2 * bs + 1))).
Proof.
  apply (blocks_are_full_but_the_last
           (Sample.long_observation (2 * bs + 1)) 2).
  unfold blocks, range_step. rewrite map_map, nth_error_map, nth_error_seq.
  rewrite length_long_observation.
  destruct (Nat.ltb_spec 2 ((2 * bs + 1 + bs - 1) / bs)) as [_|H].
  - reflexivity.
  - exfalso. revert H. apply Nat.lt_nge.
    apply Nat.div_le_lower_bound; pose proof bs_positive; lia.
Defined.

End BlockSizes.

(** * Further properties of the control loop *)

Section RetryOutcomes.

Import Agent.
Local Open Scope llm_scope.

Lemma prompts_shift (ag : ResearchAgent) (prompt : string) (k : nat) :
  prompt :: map (fun j => corrected ag j (prompt +:+ corrective_instruction ag))
              (seq 0 k)
  = map (fun j => corrected ag j prompt) (seq 0 (S k)).
Proof.
  rewrite <- cons_seq, <- seq_shift, map_cons, map_map. reflexivity.
Qed.

Lemma retry_after_invalid_responses (ag : ResearchAgent) (k : nat) :
  forall prompt sent n,
    k < n ->
    (forall j, j < k ->
       exists c, complete_text ag (length sent + j) (corrected ag j prompt)
                 = Returned c
                 /\ try_parse ag c = None) ->
    retry ag n prompt sent
    = match complete_text ag (length sent + k) (corrected ag k prompt) with
      | Returned c =>
          match try_parse ag c with
          | Some es =>
              (Returned (Some es, corrected ag k prompt),
               sent ++ map (fun j => corrected ag j prompt) (seq 0 (S k)))
          | None =>
              retry ag (n - S k) (corrected ag (S k) prompt)
                (sent ++ map (fun j => corrected ag j prompt) (seq 0 (S k)))
          end
      | Raised e =>
          (Raised e, sent ++ map (fun j => corrected ag j prompt) (seq 0 (S k)))
      end.
Proof.
  induction k as [|k IH]; intros prompt sent n Hn Hbad.
  - destruct n as [|n]; [lia|].
    rewrite Nat.add_0_r. replace (S n - 1) with n by lia.
    cbn [retry corrected seq map]. unfold bind, complete, ret.
    destruct (complete_text ag (length sent) prompt) as [c|e]; [|reflexivity].
    destruct (try_parse ag c); reflexivity.
  - destruct n as [|n]; [lia|].
    destruct (Hbad 0 ltac:(lia)) as (c0 & Hc0 & Hp0).
    rewrite Nat.add_0_r in Hc0. cbn [corrected] in Hc0.
    cbn [retry]. unfold bind at 1, complete at 1. rewrite Hc0, Hp0.
    rewrite (IH (prompt +:+ corrective_instruction ag) (sent ++ [prompt]) n)
      by (try lia;
          intros j Hj; destruct (Hbad (S j) ltac:(lia)) as (c & Hc & Hp);
          exists c; rewrite length_app; cbn [length corrected] in *;
          replace (length sent + 1 + j) with (length sent + S j) by lia;
          split; assumption).
    rewrite length_app. cbn [length].
    replace (length sent + 1 + k) with (length sent + S k) by lia.
    change (corrected ag k (prompt +:+ corrective_instruction ag))
      with (corrected ag (S k) prompt).
    change (corrected ag (S k) (prompt +:+ corrective_instruction ag))
      with (corrected ag (S (S k)) prompt).
    rewrite <- !app_assoc. cbn [app]. rewrite !prompts_shift.
    replace (S n - S (S k)) with (n - S k) by lia.
    reflexivity.
Qed.

(** The retry loop takes the first response that parses and names a known
    action.  When the responses before it were all invalid and it comes
    within the ceiling, [run] goes on with its entries and with a prompt
    that holds one corrective instruction per invalid response, and the
    service has been called exactly once per response: no further
    attempt is made. *)
Theorem first_valid_response_ends_the_retries
    (ag : ResearchAgent) (prompt : string) (sent : list string) (k : nat)
    (c : string) (es : entries) :
  (Z.of_nat k < max_retries ag)%Z ->
  (forall j, j < k ->
     exists c', complete_text ag (length sent + j) (corrected ag j prompt)
                = Returned c'
                /\ try_parse ag c' = None) ->
  complete_text ag (length sent + k) (corrected ag k prompt) = Returned c ->
  try_parse ag c = Some es ->
  valid_response ag prompt sent
  = (Returned (inr (es, corrected ag k prompt)),
     sent ++ map (fun j => corrected ag j prompt) (seq 0 (S k))).
Proof.
  intros Hk Hbad Hc Hes. unfold valid_response, bind.
  rewrite (retry_after_invalid_responses ag k prompt sent
             (Z.to_nat (max_retries ag)) ltac:(lia) Hbad).
  rewrite Hc, Hes. reflexivity.
Qed.

Lemma first_valid_response_ends_the_retries_witness :
  valid_response More.patient_agent "prompt" []
  = (Returned (inr ([("Action", "Echo")],
                    corrected More.patient_agent 1 "prompt")),
     [] ++ map (fun j => corrected More.patient_agent j "prompt") (seq 0 2)).
Proof.
  apply (first_valid_response_ends_the_retries More.patient_agent "prompt" []
           1 "Action: Echo" [("Action", "Echo")]).
  - cbn. lia.
  - intros j Hj. exists "I do not follow the format".
    destruct j as [|j]; [split; reflexivity|lia].
  - reflexivity.
  - reflexivity.
Defined.

(** An exception of the completion service in the retry loop is not
    retried: it leaves [run] at once, whatever is left of the ceiling. *)
Theorem service_error_leaves_the_retry_loop
    (ag : ResearchAgent) (prompt : string) (sent : list string) (k : nat)
    (e : exn) :
  (Z.of_nat k < max_retries ag)%Z ->
  (forall j, j < k ->
     exists c', complete_text ag (length sent + j) (corrected ag j prompt)
                = Returned c'
                /\ try_parse ag c' = None) ->
  complete_text ag (length sent + k) (corrected ag k prompt) = Raised e ->
  valid_response ag prompt sent
  = (Raised e, sent ++ map (fun j => corrected ag j prompt) (seq 0 (S k))).
Proof.
  intros Hk Hbad He. unfold valid_response, bind.
  rewrite (retry_after_invalid_responses ag k prompt sent
             (Z.to_nat (max_retries ag)) ltac:(lia) Hbad).
  rewrite He. reflexivity.
Qed.

Lemma service_error_leaves_the_retry_loop_witness :
  valid_response More.broken_agent "prompt" []
  = (Raised (LLMError "overloaded"),
     [] ++ map (fun j => corrected More.broken_agent j "prompt") (seq 0 1)).
Proof.
  apply (service_error_leaves_the_retry_loop More.broken_agent "prompt" [] 0
           (LLMError "overloaded")).
  - cbn. lia.
  - intros j Hj. lia.
  - reflexivity.
Defined.

End RetryOutcomes.

Section Prompts.

Import Agent Loop.

Lemma fold_left_pointwise {A B : Type} (f g : A -> B -> A) (l : list B) :
  (forall a x, In x l -> f a x = g a x) ->
  forall a, fold_left f l a = fold_left g l a.
Proof.
  induction l as [|x l IH]; intros H a; [reflexivity|].
  cbn. rewrite (H a x) by now left.
  apply IH. intros a' y Hy. apply H. now right.
Qed.

Lemma fold_left_map {A B C : Type} (f : A -> B -> A) (g : C -> B)
    (l : list C) :
  forall a, fold_left f (map g l) a = fold_left (fun a x => f a (g x)) l a.
Proof.
  induction l as [|x l IH]; intros a; [reflexivity|]. cbn. apply IH.
Qed.

Lemma py_range_nonneg (start stop idx : Z) :
  (0 <= start)%Z -> In idx (py_range start stop) ->
  (start <= idx < stop)%Z.
Proof.
  unfold py_range. intros Hs Hin.
  apply in_map_iff in Hin as (k & <- & Hk). apply in_seq in Hk. lia.
Qed.

(** The prompt shows at most the last [max_steps_in_context] entries of the
    history: with a window of [m] steps, whatever lies before the last [m]
    entries, and however much of it there is, makes no difference to the
    prompt; with a window of zero or less, the history makes none at
    all. *)
Theorem prompt_shows_only_the_window
    (print_action : entries -> list string -> string) (vfe : list string)
    (initial_prompt relevant_history fb : string)
    (old recent : list HistoryStep) (last_steps last_observation_step : Z) :
  (last_steps = Z.of_nat (length recent) ->
   build_prompt print_action vfe initial_prompt relevant_history
     (old ++ recent) last_steps last_observation_step fb
   = build_prompt print_action vfe initial_prompt relevant_history
       recent last_steps last_observation_step fb)
  /\ ((last_steps <= 0)%Z ->
      build_prompt print_action vfe initial_prompt relevant_history
        old last_steps last_observation_step fb
      = build_prompt print_action vfe initial_prompt relevant_history
          [] last_steps last_observation_step fb).
Proof.
  split.
  - intros ->. unfold build_prompt. do 2 f_equal.
    rewrite length_app.
    replace (Z.max (Z.of_nat (length old + length recent)
                    - Z.of_nat (length recent)) 0)
      with (Z.of_nat (length old)) by lia.
    replace (Z.max (Z.of_nat (length recent) - Z.of_nat (length recent)) 0)
      with 0%Z by lia.
    unfold py_range.
    replace (Z.to_nat (Z.of_nat (length old + length recent)
                       - Z.of_nat (length old)))
      with (length recent) by lia.
    replace (Z.to_nat (Z.of_nat (length recent) - 0))
      with (length recent) by lia.
    rewrite !fold_left_map. apply fold_left_pointwise.
    intros a k Hk. apply in_seq in Hk. unfold add_step.
    replace (Z.to_nat (Z.of_nat (length old) + Z.of_nat k))
      with (length old + k) by lia.
    replace (Z.to_nat (0 + Z.of_nat k)) with k by lia.
    rewrite nth_error_app2 by lia.
    replace (length old + k - length old) with k by lia.
    replace (Z.of_nat (length old + length recent)
             - (Z.of_nat (length old) + Z.of_nat k))%Z
      with (Z.of_nat (length recent) - (0 + Z.of_nat k))%Z by lia.
    reflexivity.
  - intros Hle. unfold build_prompt. do 2 f_equal.
    unfold py_range.
    replace (Z.to_nat (Z.of_nat (length old)
                       - Z.max (Z.of_nat (length old) - last_steps) 0))
      with 0 by lia.
    replace (Z.to_nat (Z.of_nat (length (@nil HistoryStep))
                       - Z.max (Z.of_nat (length (@nil HistoryStep))
                                - last_steps) 0))
      with 0 by (cbn [length]; lia).
    reflexivity.
Qed.

Lemma prompt_shows_only_the_window_witness :
  build_prompt More.show ["Action"] "You are a helpful research assistant."
    "nothing yet" (firstn 2 More.five_steps ++ skipn 2 More.five_steps) 3 3 ""
  = build_prompt More.show ["Action"] "You are a helpful research assistant."
      "nothing yet" (skipn 2 More.five_steps) 3 3 "".
Proof.
  apply (proj1 (prompt_shows_only_the_window More.show ["Action"]
                  "You are a helpful research assistant." "nothing yet" ""
                  (firstn 2 More.five_steps) (skipn 2 More.five_steps) 3 3)).
  reflexivity.
Defined.

(** An observation older than [max_observation_steps_in_context] cycles
    does not reach the prompt: the prompt is the same whatever that
    observation is. *)
Theorem old_observations_are_not_shown
    (print_action : entries -> list string -> string) (vfe : list string)
    (initial_prompt relevant_history fb : string)
    (before after : list HistoryStep) (h h' : HistoryStep)
    (last_steps last_observation_step : Z) :
  h_action h' = h_action h ->
  (last_observation_step < Z.of_nat (length after) + 1)%Z ->
  build_prompt print_action vfe initial_prompt relevant_history
    (before ++ h :: after) last_steps last_observation_step fb
  = build_prompt print_action vfe initial_prompt relevant_history
      (before ++ h' :: after) last_steps last_observation_step fb.
Proof.
  intros Hact Hold. unfold build_prompt. do 2 f_equal.
  rewrite !length_app. cbn [length].
  apply fold_left_pointwise. intros a idx Hin.
  apply py_range_nonneg in Hin; [|lia].
  unfold add_step.
  destruct (Nat.eq_dec (Z.to_nat idx) (length before)) as [E|E].
  - rewrite E, !nth_error_app2, Nat.sub_diag by lia. cbn [nth_error].
    rewrite Hact.
    destruct (Z.ltb_spec last_observation_step
                (Z.of_nat (length before + S (length after)) - idx));
      [reflexivity|lia].
  - assert (Hsame : nth_error (before ++ h :: after) (Z.to_nat idx)
                    = nth_error (before ++ h' :: after) (Z.to_nat idx)).
    { destruct (Nat.lt_ge_cases (Z.to_nat idx) (length before)).
      - now rewrite !nth_error_app1 by assumption.
      - rewrite !nth_error_app2 by assumption.
        destruct (Z.to_nat idx - length before) as [|n] eqn:En; [lia|].
        reflexivity. }
    now rewrite Hsame.
Qed.

Lemma old_observations_are_not_shown_witness :
  build_prompt More.show ["Action"] "You are a helpful research assistant."
    "nothing yet"
    ([More.past 1 "one"] ++ More.past 2 "two" :: [More.past 3 "three"]) 3 1 ""
  = build_prompt More.show ["Action"] "You are a helpful research assistant."
      "nothing yet"
      ([More.past 1 "one"]
       ++ Agent.mkHistoryStep 2 (h_action (More.past 2 "two"))
            "something else" ""
          :: [More.past 3 "three"]) 3 1 "".
Proof.
  apply (old_observations_are_not_shown More.show ["Action"]
           "You are a helpful research assistant." "nothing yet" ""
           [More.past 1 "one"] [More.past 3 "three"]).
  - reflexivity.
  - cbn. lia.
Defined.

(** The prompt of a cycle with two past steps, of which the older one has
    its observation left out. *)
Example a_prompt :
  build_prompt More.show ["Action"] "INTRO" "DIGEST"
    [More.past 1 "one"; More.past 2 "two"] 3 1 "go on"
  = "INTRO" +:+ history_header "DIGEST"
    +:+ "Action:" +:+ PyStr.nl +:+ "Action: Echo" +:+ PyStr.nl
    +:+ "Observation:" +:+ PyStr.nl +:+ "<Done>" +:+ PyStr.nl +:+ PyStr.nl
    +:+ "Action:" +:+ PyStr.nl +:+ "Action: Echo" +:+ PyStr.nl
    +:+ "Observation:" +:+ PyStr.nl +:+ "```" +:+ PyStr.nl +:+ "two"
    +:+ PyStr.nl +:+ "```" +:+ PyStr.nl +:+ PyStr.nl
    +:+ PyStr.nl +:+ "Previous Feedback from Human: go on" +:+ PyStr.nl
    +:+ PyStr.nl +:+ "Now let's start!" +:+ PyStr.nl +:+ PyStr.nl.
Proof. reflexivity. Qed.

End Prompts.

Section Plans.

Import Loop.

Lemma index_cons_None (sep : string) (c : ascii) (t : string) :
  String.prefix sep (String c t) = false ->
  String.index 0 sep t = None ->
  String.index 0 sep (String c t) = None.
Proof.
  intros Hp Ht. cbn [String.index]. now rewrite Hp, Ht.
Qed.

Lemma remove_double_star_shape (c c' : ascii) (s : string) :
  remove_double_star (String c (String c' s))
  = if Ascii.eqb c "*" && Ascii.eqb c' "*"
    then remove_double_star s
    else String c (remove_double_star (String c' s)).
Proof. reflexivity. Qed.

Lemma remove_double_star_head (c : ascii) (s : string) :
  Ascii.eqb c "*" = false ->
  exists t, remove_double_star (String c s) = String c t.
Proof.
  intros Hc. destruct s as [|c' s]; [now exists EmptyString|].
  rewrite remove_double_star_shape, Hc. cbn [andb]. eauto.
Qed.

Lemma no_double_star_left (n : nat) :
  forall s, String.length s <= n ->
            String.index 0 "**" (remove_double_star s) = None.
Proof.
  induction n as [|n IH]; intros s Hlen.
  - destruct s; [reflexivity|cbn in Hlen; lia].
  - destruct s as [|c [|c' s]]; [reflexivity| |].
    + cbn [remove_double_star]. apply index_cons_None; [|reflexivity].
      cbn [String.prefix]. destruct (ascii_dec "*" c); reflexivity.
    + rewrite remove_double_star_shape.
      destruct (Ascii.eqb c "*") eqn:Ec; cbn [andb].
      * destruct (Ascii.eqb c' "*") eqn:Ec'.
        -- apply IH. cbn in Hlen. lia.
        -- destruct (remove_double_star_head c' s Ec') as [t Ht].
           apply index_cons_None; [|apply IH; cbn in *; lia].
           rewrite Ht. cbn [String.prefix].
           destruct (ascii_dec "*" c); [|reflexivity].
           destruct (ascii_dec "*" c') as [<-|]; [discriminate Ec'|reflexivity].
      * apply index_cons_None; [|apply IH; cbn in *; lia].
        cbn [String.prefix].
        destruct (ascii_dec "*" c) as [<-|]; [discriminate Ec|reflexivity].
Qed.

(** The plan and status text that [run] stores back never holds the
    emphasis mark "**", whatever the model wrote: a run of stars is cut
    down to none or to a single star. *)
Theorem stored_plan_has_no_emphasis_mark (rg : string) :
  PyStr.contains "**" (new_research_plan rg) = false.
Proof.
  unfold PyStr.contains, new_research_plan.
  now rewrite (no_double_star_left _ _ (Nat.le_refl _)).
Qed.

Example a_plan_is_normalized :
  new_research_plan "```1. **Read** the data ***twice***```"
  = "1. Read the data *twice*" +:+ PyStr.nl +:+ PyStr.nl.
Proof. reflexivity. Qed.

End Plans.

Section Markers.

Import Agent.
Local Open Scope llm_scope.

Lemma substring_of_prefix (j : nat) :
  forall m len s,
    m + len <= j ->
    String.substring m len (String.substring 0 j s) = String.substring m len s.
Proof.
  induction j as [|j IH]; intros m len s H.
  - assert (m = 0) by lia. assert (len = 0) by lia. subst.
    destruct s; reflexivity.
  - destruct s as [|c s]; [reflexivity|].
    cbn [String.substring].
    destruct m as [|m].
    + destruct len as [|len]; [reflexivity|].
      cbn [String.substring]. rewrite IH by lia. reflexivity.
    + cbn [String.substring]. apply IH. lia.
Qed.

Lemma length_substring_room (m len : nat) (s : string) :
  String.length (String.substring m len s) <= String.length s - m.
Proof.
  revert m len. induction s as [|c s IH]; intros m len.
  - destruct m, len; cbn; lia.
  - destruct m as [|m].
    + destruct len as [|len]; cbn; [lia|].
      specialize (IH 0 len). lia.
    + cbn. apply IH.
Qed.

Lemma no_marker_before_the_next (sep rest : string) (j : nat) :
  sep <> EmptyString ->
  String.index 0 sep rest = Some j ->
  String.index 0 sep (String.substring 0 j rest) = None.
Proof.
  intros Hsep Hj.
  destruct (String.index 0 sep (String.substring 0 j rest)) as [m|] eqn:E;
    [exfalso|reflexivity].
  apply String.index_correct1 in E.
  assert (Hlen : 0 < String.length sep).
  { destruct sep; [congruence|cbn; lia]. }
  assert (Hroom : m + String.length sep <= j).
  { pose proof (length_substring_room m (String.length sep)
                  (String.substring 0 j rest)) as H1.
    pose proof (length_substring_le 0 j rest) as H2.
    rewrite E in H1. lia. }
  rewrite substring_of_prefix in E by exact Hroom.
  apply (String.index_correct2 _ _ _ _ Hj m); [lia|lia|exact E].
Qed.

Lemma split_second_has_no_marker (sep s r : string) :
  sep <> EmptyString ->
  PyStr.split_second sep s = Some r ->
  String.index 0 sep r = None.
Proof.
  intros Hsep. unfold PyStr.split_second.
  destruct (String.index 0 sep s) as [i|]; [|discriminate].
  destruct (String.index 0 sep (PyStr.drop (i + String.length sep) s))
    as [j|] eqn:E; intros [= <-].
  - now apply no_marker_before_the_next.
  - exact E.
Qed.

Lemma split_second_None (sep s : string) :
  PyStr.split_second sep s = None -> String.index 0 sep s = None.
Proof.
  unfold PyStr.split_second.
  destruct (String.index 0 sep s) as [i|]; [|reflexivity].
  destruct (String.index 0 sep (PyStr.drop (i + String.length sep) s));
    intros H; discriminate H.
Qed.

(** The summary that [summarize_observation] returns never holds the
    marker "[Observation]:": with the marker in the last completion it is
    the text between the first marker and the next one, without it the
    completion as it came. *)
Theorem summary_holds_no_marker
    (ag : ResearchAgent) (act obs : string) (sent : list string) :
  match summarize_observation ag act obs sent with
  | (Returned s, _) => PyStr.contains "[Observation]:" s = false
  | (Raised _, _) => True
  end.
Proof.
  unfold summarize_observation, summarize_with, bind at 1.
  destruct (describe _ _ _ _ _ sent) as [[ds|e] sent1]; [|exact I].
  unfold bind.
  assert (H : forall c,
             PyStr.contains "[Observation]:"
               match PyStr.split_second "[Observation]:" c with
               | Some s => s
               | None => c
               end = false).
  { intros c. unfold PyStr.contains.
    destruct (PyStr.split_second "[Observation]:" c) as [s|] eqn:E.
    - assert (Hsep : "[Observation]:" <> EmptyString) by discriminate.
      now rewrite (split_second_has_no_marker _ _ _ Hsep E).
    - now rewrite (split_second_None _ _ E). }
  destruct (match ds with
            | [d] => ret d
            | _ => complete (complete_text_fast ag) (reduce_prompt act ds)
            end sent1) as [[c|e] sent2] eqn:E; [|exact I].
  unfold ret. apply H.
Qed.

End Markers.
